(** * Lowering context of the Carbon toolchain

    A shallow embedding of [toolchain/lowering/lowering_context.cpp]: the
    three passes of [LoweringContext::Run] (types, function declarations,
    function definitions), [BuildType], [BuildFunctionDeclaration],
    [BuildFunctionDefinition] and [GetLocalLoaded].

    Fallible code returns an [Outcome]: [Ok] for a normal return, [Fatal] for
    a process abort ([CARBON_CHECK], [CARBON_FATAL]).  The mutable members of
    the C++ object are fields of the record [LoweringContext], threaded
    explicitly.  [CARBON_VLOG] only writes to an optional trace stream and is
    left out.  The collections of the semantic IR are lists, whose sizes are
    taken to fit the [int] the source casts them to. *)

From stdpp Require Import base option list gmap strings.

Open Scope Z_scope.

(** ** Identifiers and outcomes *)

(** Identifiers of the semantic IR are 32-bit indices ([.index]); they are
    only compared and used as subscripts here, never computed with. *)
Abbreviation SemanticsNodeId := Z (only parsing).
Abbreviation SemanticsNodeBlockId := Z (only parsing).
Abbreviation SemanticsFunctionId := Z (only parsing).
Abbreviation SemanticsStringId := Z (only parsing).

Inductive FatalError : Type :=
  | InvalidSemanticsIR
      (* "Generating LLVM IR from invalid SemanticsIR is unsupported." *)
  | RunOnlyOnce                       (* "Run can only be called once." *)
  | LocalsNotEmpty                    (* CARBON_CHECK(locals_.empty()) *)
  | DuplicateParam (param_ref : SemanticsNodeId)  (* "Duplicate param: " *)
  | MemberTypeNotBuiltin (type_id : SemanticsNodeId)
      (* CARBON_CHECK(type_id.index < ValidCount) << type_id *)
  | CannotUseNodeAsType (node_id : SemanticsNodeId)
      (* "Cannot use node as type: " *)
  | MissingType (type_id : SemanticsNodeId)
  | MissingFunction (function_id : SemanticsFunctionId)
  | MissingLocal (node_id : SemanticsNodeId)
  | DuplicateLocal (node_id : SemanticsNodeId)
  | BadSemanticsAccess                (* a subscript outside the semantic IR *)
  | NullModule                        (* llvm_module() on an empty handle *)
  | HandlerFatal (code : nat).        (* a failure raised by a node handler *)

Inductive Outcome (A : Type) : Type :=
  | Ok (a : A)
  | Fatal (e : FatalError).
Arguments Ok {A} a.
Arguments Fatal {A} e.

#[global] Instance Outcome_ret : MRet Outcome := @Ok.
#[global] Instance Outcome_bind : MBind Outcome := λ A B f m,
  match m with Ok a => f a | Fatal e => Fatal e end.

#[global] Instance Outcome_fmap : FMap Outcome := λ A B f m,
  match m with Ok a => Ok (f a) | Fatal e => Fatal e end.

Definition is_Ok {A} (o : Outcome A) : Prop := ∃ a, o = Ok a.
Definition is_Fatal {A} (o : Outcome A) : Prop := ∃ e, o = Fatal e.

(** [l[i]] for a signed subscript; [None] outside the array. *)
Definition at_index {A} (l : list A) (i : Z) : option A :=
  if decide (0 ≤ i) then l !! Z.to_nat i else None.

Definition checked {A} (e : FatalError) (o : option A) : Outcome A :=
  match o with Some a => Ok a | None => Fatal e end.

(** The counted loops of the source, [for (i = start; ...; ++i)] over the
    elements of a block, stopping at the first fatal failure. *)
Fixpoint for_each {A St} (body : nat → A → St → Outcome St)
    (i : nat) (l : list A) (s : St) : Outcome St :=
  match l with
  | [] => Ok s
  | x :: l' => s' ← body i x s; for_each body (S i) l' s'
  end.

(** A loop that fills a vector element by element. *)
Fixpoint collect {A B} (f : A → Outcome B) (l : list A) : Outcome (list B) :=
  match l with
  | [] => Ok []
  | x :: l' => y ← f x; ys ← collect f l'; Ok (y :: ys)
  end.

(** ** Target IR *)

Module LLVM.

(** The LLVM objects the lowering context builds, by structure.  A handle
    to a function is its position in the module; a basic block is
    addressed by its function and its position in that function.  LLVM's
    renaming of clashing names is not represented: a type or a function
    carries the name it was created with. *)
#[warnings="-register-all"]
Inductive Type_ : Type :=
  | Int32Ty                                   (* builder.getInt32Ty() *)
  | DoubleTy                                  (* builder.getDoubleTy() *)
  | StructTy (name : string) (elements : list Type_)
  | FunctionTy (result : Type_) (params : list Type_) (is_var_arg : bool).

Inductive Linkage : Type := ExternalLinkage | InternalLinkage.

Definition FunctionHandle := nat.

Inductive Value : Type :=
  | Argument (fn : FunctionHandle) (idx : nat)
  | AllocaInst (slot : nat)
  | GetElementPtrInst (base : Value) (idx : nat)
  | LoadInst (ty : Type_) (ptr : Value)
  | OtherValue (tag : nat).

Record BasicBlock : Type := mkBasicBlock {
  bb_name : string;
  bb_insts : list Value
}.

Record Function : Type := mkFunction {
  fn_type : Type_;
  fn_linkage : Linkage;
  fn_name : string;
  fn_arg_names : list string;
  fn_blocks : list BasicBlock
}.

Record Module_ : Type := mkModule {
  mod_name : string;
  mod_functions : list Function
}.

(** The builder's single insertion point: a function and one of its
    blocks, or none. *)
Record IRBuilder : Type := mkIRBuilder {
  insert_point : option (FunctionHandle * nat)
}.

Definition param_types (ty : Type_) : list Type_ :=
  match ty with FunctionTy _ ps _ => ps | _ => [] end.

Definition return_type (ty : Type_) : option Type_ :=
  match ty with FunctionTy r _ _ => Some r | _ => None end.

(** [llvm::Function::Create(type, linkage, name, module)]: the function is
    appended to the module, with unnamed arguments and no block. *)
Definition Function_Create (ty : Type_) (lk : Linkage) (name : string)
    (m : Module_) : FunctionHandle * Module_ :=
  (length (mod_functions m),
   mkModule (mod_name m)
     (mod_functions m ++
      [mkFunction ty lk name (replicate (length (param_types ty)) "") []])).

Definition update_function (g : Function → Function) (h : FunctionHandle)
    (m : Module_) : Module_ :=
  mkModule (mod_name m) (alter g h (mod_functions m)).

(** [fn->getArg(i)->setName(name)] *)
Definition set_arg_name (h : FunctionHandle) (i : nat) (name : string)
    (m : Module_) : Module_ :=
  update_function
    (λ f, mkFunction (fn_type f) (fn_linkage f) (fn_name f)
            (<[i := name]> (fn_arg_names f)) (fn_blocks f)) h m.

(** [llvm::BasicBlock::Create(context, name, fn)]: the block is appended
    to the function; its position is returned. *)
Definition BasicBlock_Create (name : string) (h : FunctionHandle)
    (m : Module_) : nat * Module_ :=
  (from_option (λ f, length (fn_blocks f)) 0%nat (mod_functions m !! h),
   update_function
     (λ f, mkFunction (fn_type f) (fn_linkage f) (fn_name f)
             (fn_arg_names f) (fn_blocks f ++ [mkBasicBlock name []])) h m).

(** Insertion of an instruction at the end of a block. *)
Definition append_inst (v : Value) (h : FunctionHandle) (b : nat)
    (m : Module_) : Module_ :=
  update_function
    (λ f, mkFunction (fn_type f) (fn_linkage f) (fn_name f) (fn_arg_names f)
            (alter (λ bb, mkBasicBlock (bb_name bb) (bb_insts bb ++ [v]))
               b (fn_blocks f))) h m.

(** [llvm::isa<llvm::AllocaInst, llvm::GetElementPtrInst>(value)] *)
Definition isa_AllocaInst_or_GetElementPtrInst (v : Value) : bool :=
  match v with
  | AllocaInst _ | GetElementPtrInst _ _ => true
  | _ => false
  end.

End LLVM.

Bind Scope nat_scope with LLVM.FunctionHandle.
Arguments LLVM.Argument (fn idx)%_nat.

(** ** Semantic IR *)

Module Semantics.

(** Modelled from the spec: [semantics_node_kind.def] is not among the
    sources.  The two kinds the lowering context inspects are named; every
    other entry of the list of node kinds is an [OtherKind]. *)
Inductive NodeKind : Type :=
  | StructType
  | BindName
  | OtherKind (tag : nat).

#[global] Instance NodeKind_eq_dec : EqDecision NodeKind.
Proof. solve_decision. Defined.

(** Modelled from the spec: [SemanticsNode] is declared outside the
    sources.  A node is a kind tag, a type reference and its kind-specific
    operands: the member block of a struct type, the name and the storage
    of a binding. *)
Record Node : Type := mkNode {
  kind : NodeKind;
  type_id : SemanticsNodeId;
  arg0 : Z;
  arg1 : Z
}.

(** Modelled from the spec: the function descriptor, with the fields the
    source reads. *)
Record Function : Type := mkFunction {
  name_id : SemanticsStringId;
  param_refs_id : SemanticsNodeBlockId;
  return_type_id : SemanticsNodeId;
  body_id : SemanticsNodeBlockId
}.

(** Modelled from the spec: [SemanticsIR] is declared outside the sources.
    It exposes indexed collections of types, functions, nodes, node blocks
    and interned strings, and is read-only. *)
Record IR : Type := mkIR {
  has_errors : bool;
  types : list SemanticsNodeId;
  functions : list Function;
  nodes : list Node;
  node_blocks : list (list SemanticsNodeId);
  strings : list string;
  empty_tuple_type_id : SemanticsNodeId
}.

(** Modelled from the spec: an optional reference is present when its id is
    valid; the invalid id is represented by the index -1. *)
Definition is_valid (id : Z) : bool := bool_decide (id ≠ -1).

Definition functions_size (ir : IR) : nat := length (functions ir).

(** Modelled from the spec: indexed access by id.  A subscript outside the
    collection has no defined result in the source; it is a fatal failure
    here. *)
Definition GetNode (ir : IR) (id : SemanticsNodeId) : Outcome Node :=
  checked BadSemanticsAccess (at_index (nodes ir) id).

Definition GetNodeBlock (ir : IR) (id : SemanticsNodeBlockId)
    : Outcome (list SemanticsNodeId) :=
  checked BadSemanticsAccess (at_index (node_blocks ir) id).

Definition GetFunction (ir : IR) (id : SemanticsFunctionId)
    : Outcome Function :=
  checked BadSemanticsAccess (at_index (functions ir) id).

Definition GetString (ir : IR) (id : SemanticsStringId) : Outcome string :=
  checked BadSemanticsAccess (at_index (strings ir) id).

(** Modelled from the spec: the decoded content of a binding node, its name
    and its storage, and of a struct type node, its member block. *)
Definition GetAsBindName (n : Node)
    : Outcome (SemanticsStringId * SemanticsNodeId) :=
  match kind n with
  | BindName => Ok (arg0 n, arg1 n)
  | _ => Fatal BadSemanticsAccess
  end.

Definition GetAsStructType (n : Node) : Outcome SemanticsNodeBlockId :=
  match kind n with
  | StructType => Ok (arg0 n)
  | _ => Fatal BadSemanticsAccess
  end.

End Semantics.

(** ** The lowering context *)

(** The members of [LoweringContext].  [llvm_module_] is the owning handle
    of the module under construction, empty once the module has been moved
    out.  [types_] and [functions_] are the caches indexed by type and
    function id; an element is [None] while it has only been reserved by
    [resize_for_overwrite].  [locals_] is the map from storage node to
    target value of the function being lowered. *)
Record LoweringContext : Type := mkLoweringContext {
  llvm_module_ : option LLVM.Module_;
  builder_ : LLVM.IRBuilder;
  semantics_ir_ : Semantics.IR;
  types_ : list (option LLVM.Type_);
  functions_ : list (option LLVM.FunctionHandle);
  locals_ : gmap Z LLVM.Value
}.

Definition set_llvm_module (m : option LLVM.Module_) (c : LoweringContext) :=
  mkLoweringContext m (builder_ c) (semantics_ir_ c) (types_ c)
    (functions_ c) (locals_ c).
Definition set_builder (b : LLVM.IRBuilder) (c : LoweringContext) :=
  mkLoweringContext (llvm_module_ c) b (semantics_ir_ c) (types_ c)
    (functions_ c) (locals_ c).
Definition set_types (t : list (option LLVM.Type_)) (c : LoweringContext) :=
  mkLoweringContext (llvm_module_ c) (builder_ c) (semantics_ir_ c) t
    (functions_ c) (locals_ c).
Definition set_functions (f : list (option LLVM.FunctionHandle))
    (c : LoweringContext) :=
  mkLoweringContext (llvm_module_ c) (builder_ c) (semantics_ir_ c) (types_ c)
    f (locals_ c).
Definition set_locals (l : gmap Z LLVM.Value) (c : LoweringContext) :=
  mkLoweringContext (llvm_module_ c) (builder_ c) (semantics_ir_ c) (types_ c)
    (functions_ c) l.

(** The constructor: the module is created, the builder has no insertion
    point, the caches and the local environment start empty. *)
Definition NewLoweringContext (module_name : string) (ir : Semantics.IR)
    : Outcome LoweringContext :=
  if Semantics.has_errors ir then Fatal InvalidSemanticsIR
  else Ok (mkLoweringContext (Some (LLVM.mkModule module_name []))
             (LLVM.mkIRBuilder None) ir [] [] ∅).

(** [v.resize_for_overwrite(n)]: the elements kept are unchanged, the new
    ones are reserved and not yet written. *)
Definition resize_for_overwrite {A} (n : nat) (v : list (option A))
    : list (option A) :=
  take n v ++ replicate (n - length v) None.

(** Modelled from the spec: [GetType] is defined in the header, outside the
    sources.  It reads the Type Cache at the type id; every type id consumed
    must already have a populated entry, anything else is a fatal lookup
    failure. *)
Definition GetType (type_id : SemanticsNodeId) (c : LoweringContext)
    : Outcome LLVM.Type_ :=
  checked (MissingType type_id) (mjoin (at_index (types_ c) type_id)).

(** Modelled from the spec: [GetFunction] is defined in the header.  It
    reads the Function Cache at the function id, which must be populated. *)
Definition GetFunction (function_id : SemanticsFunctionId)
    (c : LoweringContext) : Outcome LLVM.FunctionHandle :=
  checked (MissingFunction function_id)
    (mjoin (at_index (functions_ c) function_id)).

(** Modelled from the spec: [GetLocal] is defined in the header.  It reads
    the value recorded for the node in the Local Value Environment. *)
Definition GetLocal (node_id : SemanticsNodeId) (c : LoweringContext)
    : Outcome LLVM.Value :=
  checked (MissingLocal node_id) (locals_ c !! node_id).

(** Modelled from the spec: [llvm_module()] is defined in the header; it
    dereferences the module handle. *)
Definition llvm_module (c : LoweringContext) : Outcome LLVM.Module_ :=
  checked NullModule (llvm_module_ c).

(** [builder().Insert(inst)]: the instruction is inserted at the builder's
    insertion point, when there is one. *)
Definition Insert (v : LLVM.Value) (c : LoweringContext) : LoweringContext :=
  match LLVM.insert_point (builder_ c) with
  | Some (h, b) => set_llvm_module (LLVM.append_inst v h b <$> llvm_module_ c) c
  | None => c
  end.

(** [builder().CreateLoad(type, ptr)] *)
Definition CreateLoad (ty : LLVM.Type_) (ptr : LLVM.Value)
    (c : LoweringContext) : LLVM.Value * LoweringContext :=
  (LLVM.LoadInst ty ptr, Insert (LLVM.LoadInst ty ptr) c).

(** Modelled from the spec: [SetLocal] is defined in the header.  The Local
    Value Environment holds no duplicate key; a second value for a key that
    is present is an error. *)
Definition SetLocal (node_id : SemanticsNodeId) (v : LLVM.Value)
    (c : LoweringContext) : Outcome LoweringContext :=
  match locals_ c !! node_id with
  | None => Ok (set_locals (<[node_id := v]> (locals_ c)) c)
  | Some _ => Fatal (DuplicateLocal node_id)
  end.

Definition GetLocalLoaded (node_id : SemanticsNodeId) (c : LoweringContext)
    : Outcome (LLVM.Value * LoweringContext) :=
  value ← GetLocal node_id c;
  if LLVM.isa_AllocaInst_or_GetElementPtrInst value then
    node ← Semantics.GetNode (semantics_ir_ c) node_id;
    load_type ← GetType (Semantics.type_id node) c;
    Ok (CreateLoad load_type value c)
  else Ok (value, c).

(** ** A sample program

    A semantic IR with three built-in kinds, a struct type [{i32, f64}], a
    function [add(a: i32, b: i32) -> i32] with a body, and a declaration
    [ext] without body or return type whose two parameters are bound to the
    same storage.  [ir_dup] adds a function [dup] with the same parameters
    and an empty body.  The handlers lower a variable to a stack slot, a
    sum and a return to one instruction each over their loaded operands,
    emit nothing for types and bindings, and fail on any other kind. *)
Module Sample.

Definition IntegerType : Z := 0.
Definition FloatingPointType : Z := 1.
Definition EmptyTupleType : Z := 2.
Definition ValidCount : Z := 3.

Definition builtin_name (i : Z) : string :=
  if decide (i = 0) then "i32"
  else if decide (i = 1) then "f64"
  else if decide (i = 2) then "() as Type"
  else "".

Definition Builtin := Semantics.OtherKind 0.
Definition StructTypeField := Semantics.OtherKind 1.
Definition VarStorage := Semantics.OtherKind 2.
Definition ReturnExpression := Semantics.OtherKind 3.
Definition BinaryOperatorAdd := Semantics.OtherKind 4.

Definition nodes : list Semantics.Node :=
  [ Semantics.mkNode Builtin (-1) 0 0;                 (* 0: i32 *)
    Semantics.mkNode Builtin (-1) 1 0;                 (* 1: f64 *)
    Semantics.mkNode Builtin (-1) 2 0;                 (* 2: () *)
    Semantics.mkNode Semantics.StructType (-1) 0 0;    (* 3: {i32, f64} *)
    Semantics.mkNode StructTypeField 0 0 0;            (* 4 *)
    Semantics.mkNode StructTypeField 1 0 0;            (* 5 *)
    Semantics.mkNode VarStorage 0 0 0;                 (* 6: storage of a *)
    Semantics.mkNode Semantics.BindName 0 1 6;         (* 7: a *)
    Semantics.mkNode VarStorage 0 0 0;                 (* 8: storage of b *)
    Semantics.mkNode Semantics.BindName 0 2 8;         (* 9: b *)
    Semantics.mkNode BinaryOperatorAdd 0 6 8;          (* 10: a + b *)
    Semantics.mkNode ReturnExpression 0 10 0;          (* 11: return *)
    Semantics.mkNode Semantics.BindName 0 2 6;         (* 12: b, bound to 6 *)
    Semantics.mkNode Semantics.StructType (-1) 5 0;    (* 13: {{...}} *)
    Semantics.mkNode StructTypeField 3 0 0;            (* 14 *)
    Semantics.mkNode VarStorage 0 0 0 ].               (* 15: a variable *)

Definition node_blocks : list (list Z) :=
  [ [4; 5]; [7; 9]; [10; 11]; [7; 12]; []; [14]; [15; 11] ].

Definition strings : list string := [ "add"; "a"; "b"; "ext"; "dup" ].

Definition add := Semantics.mkFunction 0 1 0 2.
Definition ext := Semantics.mkFunction 3 3 (-1) (-1).
Definition dup := Semantics.mkFunction 4 3 (-1) 4.

Definition ir : Semantics.IR :=
  Semantics.mkIR false [0; 1; 2; 3] [add; ext] nodes node_blocks strings 2.

Definition ir_dup : Semantics.IR :=
  Semantics.mkIR false [0; 1; 2; 3] [add; ext; dup] nodes node_blocks
    strings 2.

Definition LoweringHandle (k : Semantics.NodeKind) (c : LoweringContext)
    (node_id : Z) (node : Semantics.Node) : Outcome LoweringContext :=
  match k with
  | Semantics.OtherKind 2 =>
      let slot := LLVM.AllocaInst (Z.to_nat node_id) in
      SetLocal node_id slot (Insert slot c)
  | Semantics.OtherKind 3 =>
      v ← GetLocalLoaded (Semantics.arg0 node) c;
      Ok (Insert (LLVM.OtherValue 3) v.2)
  | Semantics.OtherKind 4 =>
      lhs ← GetLocalLoaded (Semantics.arg0 node) c;
      rhs ← GetLocalLoaded (Semantics.arg1 node) lhs.2;
      SetLocal node_id (LLVM.OtherValue 4) (Insert (LLVM.OtherValue 4) rhs.2)
  | Semantics.OtherKind (S (S (S (S (S code))))) => Fatal (HandlerFatal code)
  | _ => Ok c
  end.

(** The context as the constructor leaves it, for both programs. *)
Definition fresh : LoweringContext :=
  mkLoweringContext (Some (LLVM.mkModule "m" [])) (LLVM.mkIRBuilder None) ir
    [] [] ∅.

Definition fresh_dup : LoweringContext :=
  mkLoweringContext (Some (LLVM.mkModule "m" [])) (LLVM.mkIRBuilder None)
    ir_dup [] [] ∅.

(** The contexts of [fresh] and [fresh_dup] when the type pass is over and
    the Function Cache is reserved. *)
Definition lowered_types : list (option LLVM.Type_) :=
  [ Some LLVM.Int32Ty; Some LLVM.DoubleTy;
    Some (LLVM.StructTy "() as Type" []);
    Some (LLVM.StructTy "StructLiteralType" [LLVM.Int32Ty; LLVM.DoubleTy]) ].

Definition typed : LoweringContext :=
  mkLoweringContext (Some (LLVM.mkModule "m" [])) (LLVM.mkIRBuilder None) ir
    lowered_types [None; None] ∅.

Definition typed_dup : LoweringContext :=
  mkLoweringContext (Some (LLVM.mkModule "m" [])) (LLVM.mkIRBuilder None)
    ir_dup lowered_types [None; None; None] ∅.

(** The context of [fresh_dup] when the declaration pass is over. *)
Definition declared_dup : LoweringContext :=
  mkLoweringContext
    (Some (LLVM.mkModule "m"
       [ LLVM.mkFunction
           (LLVM.FunctionTy LLVM.Int32Ty [LLVM.Int32Ty; LLVM.Int32Ty] false)
           LLVM.ExternalLinkage "add" ["a"; "b"] [];
         LLVM.mkFunction
           (LLVM.FunctionTy (LLVM.StructTy "() as Type" [])
              [LLVM.Int32Ty; LLVM.Int32Ty] false)
           LLVM.ExternalLinkage "ext" ["a"; "b"] [];
         LLVM.mkFunction
           (LLVM.FunctionTy (LLVM.StructTy "() as Type" [])
              [LLVM.Int32Ty; LLVM.Int32Ty] false)
           LLVM.ExternalLinkage "dup" ["a"; "b"] [] ]))
    (LLVM.mkIRBuilder None) ir_dup lowered_types
    [Some 0%nat; Some 1%nat; Some 2%nat] ∅.

(** A context in the middle of a function: an insertion point in the
    entry block of [add], a stack slot recorded for node 15 and an
    argument for node 6. *)
Definition in_body : LoweringContext :=
  mkLoweringContext
    (Some (LLVM.mkModule "m"
       [LLVM.mkFunction (LLVM.FunctionTy LLVM.Int32Ty [] false)
          LLVM.ExternalLinkage "f" [] [LLVM.mkBasicBlock "entry" []]]))
    (LLVM.mkIRBuilder (Some (0%nat, 0%nat))) ir
    [Some LLVM.Int32Ty; Some LLVM.DoubleTy] [Some 0%nat]
    (<[15 := LLVM.AllocaInst 15]> (<[6 := LLVM.Argument 0 0]> ∅)).

(** Two more programs: one with the single function [nop], which has the
    parameters of [add], no return type and a body without nodes, with its
    context when the declaration pass is over; one with the single
    declaration [ext], with its context as the constructor leaves it. *)
Definition nop := Semantics.mkFunction 4 1 (-1) 4.

Definition ir_nop : Semantics.IR :=
  Semantics.mkIR false [0; 1; 2; 3] [nop] nodes node_blocks strings 2.

Definition declared_nop : LoweringContext :=
  mkLoweringContext
    (Some (LLVM.mkModule "m"
       [ LLVM.mkFunction
           (LLVM.FunctionTy (LLVM.StructTy "() as Type" [])
              [LLVM.Int32Ty; LLVM.Int32Ty] false)
           LLVM.ExternalLinkage "dup" ["a"; "b"] [] ]))
    (LLVM.mkIRBuilder None) ir_nop lowered_types [Some 0%nat] ∅.

(** The program of [ir] with its two functions in the other order, so that
    the function with a body is not the first, and its context as the
    constructor leaves it. *)
Definition ir_ext_add : Semantics.IR :=
  Semantics.mkIR false [0; 1; 2; 3] [ext; add] nodes node_blocks strings 2.

Definition fresh_ext_add : LoweringContext :=
  mkLoweringContext (Some (LLVM.mkModule "m" [])) (LLVM.mkIRBuilder None)
    ir_ext_add [] [] ∅.

Definition ir_ext : Semantics.IR :=
  Semantics.mkIR false [0; 1; 2; 3] [ext] nodes node_blocks strings 2.

Definition fresh_ext : LoweringContext :=
  mkLoweringContext (Some (LLVM.mkModule "m" [])) (LLVM.mkIRBuilder None)
    ir_ext [] [] ∅.

End Sample.

Section Lowering.

(** The built-in kinds are declared by [semantics_builtin_kind.def],
    outside the sources: the three kinds [BuildType] switches on, by their
    [AsInt()] value, the number [ValidCount] of valid built-in kinds, and
    the canonical name [FromInt(i).name()] of a built-in kind. *)
Variables EmptyTupleType FloatingPointType IntegerType ValidCount : Z.
Variable builtin_name : Z → string.

(** The node handlers [LoweringHandle<Kind>], one per node kind, are
    defined in other files; each receives the context, the node id and
    the node. *)
Variable LoweringHandle :
  Semantics.NodeKind → LoweringContext → SemanticsNodeId → Semantics.Node →
  Outcome LoweringContext.

(** The type of one member of a struct type: lines 153-158. *)
Definition BuildMemberType (c : LoweringContext) (ref_id : SemanticsNodeId)
    : Outcome LLVM.Type_ :=
  ref ← Semantics.GetNode (semantics_ir_ c) ref_id;
  let type_id := Semantics.type_id ref in
  if decide (type_id < ValidCount) then GetType type_id c
  else Fatal (MemberTypeNotBuiltin type_id).

Definition BuildType (node_id : SemanticsNodeId) (c : LoweringContext)
    : Outcome LLVM.Type_ :=
  if decide (node_id = EmptyTupleType) then
    Ok (LLVM.StructTy (builtin_name node_id) [])
  else if decide (node_id = FloatingPointType) then Ok LLVM.DoubleTy
  else if decide (node_id = IntegerType) then Ok LLVM.Int32Ty
  else
    node ← Semantics.GetNode (semantics_ir_ c) node_id;
    match Semantics.kind node with
    | Semantics.StructType =>
        block ← Semantics.GetAsStructType node;
        refs ← Semantics.GetNodeBlock (semantics_ir_ c) block;
        subtypes ← collect (BuildMemberType c) refs;
        Ok (LLVM.StructTy "StructLiteralType" subtypes)
    | _ => Fatal (CannotUseNodeAsType node_id)
    end.

(** The type of one parameter: line 63. *)
Definition ParamType (c : LoweringContext) (param_ref : SemanticsNodeId)
    : Outcome LLVM.Type_ :=
  param ← Semantics.GetNode (semantics_ir_ c) param_ref;
  GetType (Semantics.type_id param) c.

(** The id whose lowered type is the return type: lines 66-68. *)
Definition ReturnTypeId (ir : Semantics.IR) (function : Semantics.Function)
    : SemanticsNodeId :=
  if Semantics.is_valid (Semantics.return_type_id function)
  then Semantics.return_type_id function
  else Semantics.empty_tuple_type_id ir.

(** One round of the loop that names the parameters: lines 76-80. *)
Definition SetParamName (ir : Semantics.IR) (h : LLVM.FunctionHandle)
    (i : nat) (param_ref : SemanticsNodeId) (m : LLVM.Module_)
    : Outcome LLVM.Module_ :=
  param ← Semantics.GetNode ir param_ref;
  bind ← Semantics.GetAsBindName param;
  name ← Semantics.GetString ir bind.1;
  Ok (LLVM.set_arg_name h i name m).

Definition BuildFunctionDeclaration (function_id : SemanticsFunctionId)
    (c : LoweringContext) : Outcome (LLVM.FunctionHandle * LoweringContext) :=
  let ir := semantics_ir_ c in
  function ← Semantics.GetFunction ir function_id;
  param_refs ← Semantics.GetNodeBlock ir (Semantics.param_refs_id function);
  args ← collect (ParamType c) param_refs;
  return_type ← GetType (ReturnTypeId ir function) c;
  let function_type := LLVM.FunctionTy return_type args false in
  name ← Semantics.GetString ir (Semantics.name_id function);
  m ← llvm_module c;
  let created :=
    LLVM.Function_Create function_type LLVM.ExternalLinkage name m in
  m' ← for_each (SetParamName ir created.1) 0 param_refs created.2;
  Ok (created.1, set_llvm_module (Some m') c).

(** The entry block of a definition and the insertion point: lines 96-97.
    The source creates the block in the function without going through the
    module handle; when the context holds no module, the function lies
    outside this record and only the insertion point is recorded. *)
Definition EnterFunction (h : LLVM.FunctionHandle) (c : LoweringContext)
    : LoweringContext :=
  match llvm_module_ c with
  | Some m =>
      let created := LLVM.BasicBlock_Create "entry" h m in
      set_builder (LLVM.mkIRBuilder (Some (h, created.1)))
        (set_llvm_module (Some created.2) c)
  | None => set_builder (LLVM.mkIRBuilder (Some (h, 0%nat))) c
  end.

(** One round of the loop that adds the parameters to the locals: lines
    102-108.  [insert] leaves the map as it is and answers [false] when
    the key is present. *)
Definition BindParam (ir : Semantics.IR) (h : LLVM.FunctionHandle)
    (i : nat) (param_ref : SemanticsNodeId) (c : LoweringContext)
    : Outcome LoweringContext :=
  param ← Semantics.GetNode ir param_ref;
  bind ← Semantics.GetAsBindName param;
  let param_storage := bind.2 in
  match locals_ c !! param_storage with
  | None =>
      Ok (set_locals (<[param_storage := LLVM.Argument h i]> (locals_ c)) c)
  | Some _ => Fatal (DuplicateParam param_ref)
  end.

(** One round of the loop over the body: lines 111-121.  The switch has
    one case per node kind, each calling the handler of that kind. *)
Definition LowerNode (ir : Semantics.IR) (_ : nat)
    (node_id : SemanticsNodeId) (c : LoweringContext)
    : Outcome LoweringContext :=
  node ← Semantics.GetNode ir node_id;
  LoweringHandle (Semantics.kind node) c node_id node.

Definition BuildFunctionDefinition (function_id : SemanticsFunctionId)
    (c : LoweringContext) : Outcome LoweringContext :=
  let ir := semantics_ir_ c in
  function ← Semantics.GetFunction ir function_id;
  let body_id := Semantics.body_id function in
  if negb (Semantics.is_valid body_id) then Ok c
  else
    llvm_function ← GetFunction function_id c;
    let c1 := EnterFunction llvm_function c in
    if decide (dom (locals_ c1) = ∅) then
      param_refs ←
        Semantics.GetNodeBlock ir (Semantics.param_refs_id function);
      c2 ← for_each (BindParam ir llvm_function) 0 param_refs c1;
      body ← Semantics.GetNodeBlock ir body_id;
      c3 ← for_each (LowerNode ir) 0 body c2;
      Ok (set_locals ∅ c3)
    else Fatal LocalsNotEmpty.

(** One round of each of the three loops of [Run]. *)
Definition LowerType (i : nat) (type_node : SemanticsNodeId)
    (c : LoweringContext) : Outcome LoweringContext :=
  ty ← BuildType type_node c;
  Ok (set_types (<[i := Some ty]> (types_ c)) c).

Definition LowerDeclaration (_ : nat) (i : nat) (c : LoweringContext)
    : Outcome LoweringContext :=
  r ← BuildFunctionDeclaration (Z.of_nat i) c;
  Ok (set_functions (<[i := Some r.1]> (functions_ r.2)) r.2).

Definition LowerDefinition (_ : nat) (i : nat) (c : LoweringContext)
    : Outcome LoweringContext :=
  BuildFunctionDefinition (Z.of_nat i) c.

(** The three passes of [Run], in order. *)
Definition LowerTypes (c : LoweringContext) : Outcome LoweringContext :=
  let types := Semantics.types (semantics_ir_ c) in
  for_each LowerType 0 types
    (set_types (resize_for_overwrite (length types) (types_ c)) c).

Definition LowerDeclarations (n : nat) (c : LoweringContext)
    : Outcome LoweringContext :=
  for_each LowerDeclaration 0 (seq 0 n) c.

Definition LowerDefinitions (n : nat) (c : LoweringContext)
    : Outcome LoweringContext :=
  for_each LowerDefinition 0 (seq 0 n) c.

Definition ReserveFunctions (c : LoweringContext) : LoweringContext :=
  set_functions
    (resize_for_overwrite (Semantics.functions_size (semantics_ir_ c))
       (functions_ c)) c.

(** [Run] returns the module handle it held, and keeps an empty one. *)
Definition Run (c : LoweringContext)
    : Outcome (option LLVM.Module_ * LoweringContext) :=
  match llvm_module_ c with
  | None => Fatal RunOnlyOnce
  | Some _ =>
      let n := Semantics.functions_size (semantics_ir_ c) in
      c1 ← LowerTypes c;
      c2 ← LowerDeclarations n (ReserveFunctions c1);
      c3 ← LowerDefinitions n c2;
      Ok (llvm_module_ c3, set_llvm_module None c3)
  end.

(** ** Notions used to state the properties *)

(** The built-in range of ids. *)
Definition InBuiltinRange (id : Z) : Prop := 0 ≤ id < ValidCount.

(** A member reference of a struct type whose declared type is in the
    built-in range and has the lowered type [sub] in the Type Cache. *)
Definition MemberLowersTo (c : LoweringContext) (ref_id : SemanticsNodeId)
    (sub : LLVM.Type_) : Prop :=
  ∃ member, Semantics.GetNode (semantics_ir_ c) ref_id = Ok member ∧
            InBuiltinRange (Semantics.type_id member) ∧
            GetType (Semantics.type_id member) c = Ok sub.

(** The storage a parameter reference is bound to (lines 103-104), and the
    storages of all the parameters of a function, in parameter order. *)
Definition ParamStorage (ir : Semantics.IR) (param_ref : SemanticsNodeId)
    : Outcome SemanticsNodeId :=
  param ← Semantics.GetNode ir param_ref;
  bind ← Semantics.GetAsBindName param;
  Ok bind.2.

Definition ParamStorages (ir : Semantics.IR) (function : Semantics.Function)
    : Outcome (list SemanticsNodeId) :=
  param_refs ← Semantics.GetNodeBlock ir (Semantics.param_refs_id function);
  collect (ParamStorage ir) param_refs.

(** The name interned for the binding of a parameter reference: lines
    77-79. *)
Definition ParamName (ir : Semantics.IR) (param_ref : SemanticsNodeId)
    : Outcome string :=
  param ← Semantics.GetNode ir param_ref;
  bind ← Semantics.GetAsBindName param;
  Semantics.GetString ir bind.1.

(** What a declaration needs to succeed: the function, its parameter
    block and its name exist, every parameter is a binding with an interned
    name and a lowered type, the return type is lowered and the module is
    held.  The storage a parameter is bound to plays no part. *)
Definition Declarable (c : LoweringContext) (function_id : Z) : Prop :=
  ∃ function param_refs,
    Semantics.GetFunction (semantics_ir_ c) function_id = Ok function ∧
    Semantics.GetNodeBlock (semantics_ir_ c)
      (Semantics.param_refs_id function) = Ok param_refs ∧
    Forall (λ r, ∃ n, Semantics.GetNode (semantics_ir_ c) r = Ok n ∧
                      Semantics.kind n = Semantics.BindName ∧
                      is_Ok (Semantics.GetString (semantics_ir_ c)
                               (Semantics.arg0 n)) ∧
                      is_Ok (GetType (Semantics.type_id n) c)) param_refs ∧
    is_Ok (GetType (ReturnTypeId (semantics_ir_ c) function) c) ∧
    is_Ok (Semantics.GetString (semantics_ir_ c)
             (Semantics.name_id function)) ∧
    is_Some (llvm_module_ c).

(** ** Properties *)

(** *** The outcome monad and the loops *)

Lemma bind_Ok {A B} (m : Outcome A) (f : A → Outcome B) (b : B) :
  m ≫= f = Ok b → ∃ a, m = Ok a ∧ f a = Ok b.
Proof. destruct m as [a|e]; [eauto | discriminate]. Qed.

Lemma checked_Ok {A} (e : FatalError) (o : option A) (a : A) :
  checked e o = Ok a ↔ o = Some a.
Proof. destruct o; simpl; split; congruence. Qed.

Lemma Ok_or_Fatal {A} (o : Outcome A) : is_Ok o ∨ is_Fatal o.
Proof. destruct o; [left | right]; eexists; reflexivity. Qed.

Lemma not_Ok_Fatal {A} (o : Outcome A) : ¬ is_Ok o → is_Fatal o.
Proof. intros Hno. by destruct (Ok_or_Fatal o) as [Hok|Hfatal]. Qed.

Lemma at_index_of_nat {A} (l : list A) (i : nat) :
  at_index l (Z.of_nat i) = l !! i.
Proof.
  unfold at_index. rewrite decide_True by lia. by rewrite Nat2Z.id.
Qed.

Lemma at_index_Some {A} (l : list A) (i : Z) (a : A) :
  at_index l i = Some a → 0 ≤ i ∧ l !! Z.to_nat i = Some a.
Proof. unfold at_index. case_decide; [auto | discriminate]. Qed.

Lemma for_each_app {A St} (body : nat → A → St → Outcome St)
    (l1 l2 : list A) (i : nat) (s : St) :
  for_each body i (l1 ++ l2) s =
  for_each body i l1 s ≫= for_each body (i + length l1) l2.
Proof.
  revert i s. induction l1 as [|x l1 IH]; intros i s; simpl.
  - by rewrite Nat.add_0_r.
  - destruct (body i x s) as [s'|e]; simpl; [|done].
    rewrite IH. by replace (S i + length l1)%nat with (i + S (length l1))%nat
      by lia.
Qed.

(** A property kept by every round of a loop is kept by the loop. *)
Lemma for_each_preserves {A St} (P : St → Prop)
    (body : nat → A → St → Outcome St) (l : list A) :
  (∀ i x s s', x ∈ l → body i x s = Ok s' → P s → P s') →
  ∀ i s s', for_each body i l s = Ok s' → P s → P s'.
Proof.
  induction l as [|x l IH]; intros Hbody i s s' Hrun Hs; simpl in Hrun.
  - by inversion Hrun; subst.
  - apply bind_Ok in Hrun as (s1 & H1 & Hrun).
    eapply IH; [| exact Hrun |].
    + intros j y t t' Hy. apply Hbody. by right.
    + eapply Hbody; [by left | exact H1 | exact Hs].
Qed.

Lemma collect_Ok_Forall2 {A B} (f : A → Outcome B) (l : list A)
    (r : list B) :
  collect f l = Ok r ↔ Forall2 (λ x y, f x = Ok y) l r.
Proof.
  revert r. induction l as [|x l IH]; intros r; simpl; split.
  - intros H. inversion H. constructor.
  - intros H. by inversion H.
  - intros H. apply bind_Ok in H as (y & Hy & H).
    apply bind_Ok in H as (ys & Hys & H). inversion H; subst.
    constructor; [done | by apply IH].
  - intros H. inversion H as [|? y ? ys Hy Hys]; subst.
    rewrite Hy. simpl. apply IH in Hys. by rewrite Hys.
Qed.

Lemma bind_Ok_r {A} (m : Outcome A) : m ≫= Ok = m.
Proof. by destruct m. Qed.

(** The loops of [Run] count from 0 to [n]: one more round is the loop up
    to [n] followed by round [n]. *)
Lemma for_each_seq_S {St} (body : nat → nat → St → Outcome St) (n : nat)
    (s : St) :
  for_each body 0 (seq 0 (S n)) s =
  for_each body 0 (seq 0 n) s ≫= body n n.
Proof.
  rewrite seq_S, for_each_app, length_seq. simpl.
  destruct (for_each body 0 (seq 0 n) s) as [s'|e]; simpl; [|done].
  apply bind_Ok_r.
Qed.

(** A loop that completes has completed each of its prefixes. *)
Lemma for_each_seq_prefix {St} (body : nat → nat → St → Outcome St)
    (n i : nat) (s s' : St) :
  for_each body 0 (seq 0 n) s = Ok s' → (i ≤ n)%nat →
  is_Ok (for_each body 0 (seq 0 i) s).
Proof.
  revert s'. induction n as [|n IH]; intros s' Hrun Hi.
  - replace i with 0%nat by lia. by eexists.
  - destruct (decide (i = S n)) as [->|Hne]; [by eexists|].
    rewrite for_each_seq_S in Hrun. apply bind_Ok in Hrun as (s1 & H1 & _).
    eapply IH; [exact H1 | lia].
Qed.

(** *** What an inserted instruction changes *)

Lemma Insert_frame (v : LLVM.Value) (c : LoweringContext) :
  locals_ (Insert v c) = locals_ c ∧ types_ (Insert v c) = types_ c ∧
  functions_ (Insert v c) = functions_ c ∧
  semantics_ir_ (Insert v c) = semantics_ir_ c ∧
  builder_ (Insert v c) = builder_ c.
Proof.
  unfold Insert. destruct (LLVM.insert_point (builder_ c)) as [[h b]|]; done.
Qed.

(** At an insertion point that denotes a block of the module, the
    instruction is appended to that block. *)
Lemma Insert_appends (v : LLVM.Value) (c : LoweringContext)
    (h b : nat) (m : LLVM.Module_) (f : LLVM.Function)
    (bb : LLVM.BasicBlock) :
  LLVM.insert_point (builder_ c) = Some (h, b) →
  llvm_module_ c = Some m →
  LLVM.mod_functions m !! h = Some f →
  LLVM.fn_blocks f !! b = Some bb →
  ∃ m' f',
    llvm_module_ (Insert v c) = Some m' ∧
    LLVM.mod_functions m' !! h = Some f' ∧
    LLVM.fn_blocks f' !! b =
      Some (LLVM.mkBasicBlock (LLVM.bb_name bb) (LLVM.bb_insts bb ++ [v])).
Proof.
  intros Hip Hm Hf Hbb. unfold Insert. rewrite Hip, Hm. simpl.
  eexists _, _. split; [reflexivity|]. simpl.
  rewrite list_lookup_alter_eq, Hf. simpl. split; [reflexivity|]. simpl.
  by rewrite list_lookup_alter_eq, Hbb.
Qed.

Lemma SetLocal_functions (node_id : Z) (v : LLVM.Value)
    (c c' : LoweringContext) :
  SetLocal node_id v c = Ok c' → functions_ c' = functions_ c.
Proof.
  unfold SetLocal. destruct (locals_ c !! node_id); [discriminate|].
  intros H. by inversion H.
Qed.

Lemma GetLocalLoaded_functions (node_id : Z) (v : LLVM.Value)
    (c c' : LoweringContext) :
  GetLocalLoaded node_id c = Ok (v, c') → functions_ c' = functions_ c.
Proof.
  unfold GetLocalLoaded. intros H. apply bind_Ok in H as (value & _ & H).
  destruct (LLVM.isa_AllocaInst_or_GetElementPtrInst value).
  - apply bind_Ok in H as (node & _ & H).
    apply bind_Ok in H as (ty & _ & H). inversion H; subst.
    by destruct (Insert_frame (LLVM.LoadInst ty value) c) as (_ & _ & ? & _).
  - by inversion H.
Qed.

Lemma SetLocal_semantics_ir (node_id : Z) (v : LLVM.Value)
    (c c' : LoweringContext) :
  SetLocal node_id v c = Ok c' → semantics_ir_ c' = semantics_ir_ c.
Proof.
  unfold SetLocal. destruct (locals_ c !! node_id); [discriminate|].
  intros H. by inversion H.
Qed.

Lemma GetLocalLoaded_semantics_ir (node_id : Z) (v : LLVM.Value)
    (c c' : LoweringContext) :
  GetLocalLoaded node_id c = Ok (v, c') → semantics_ir_ c' = semantics_ir_ c.
Proof.
  unfold GetLocalLoaded. intros H. apply bind_Ok in H as (value & _ & H).
  destruct (LLVM.isa_AllocaInst_or_GetElementPtrInst value).
  - apply bind_Ok in H as (node & _ & H).
    apply bind_Ok in H as (ty & _ & H). inversion H; subst.
    by destruct (Insert_frame (LLVM.LoadInst ty value) c)
      as (_ & _ & _ & ? & _).
  - by inversion H.
Qed.

(** *** Value materialization *)

(** C1: for a node recorded in the Local Value Environment with value
    [v], [GetLocalLoaded] returns [v] and changes nothing when [v] is
    neither a stack allocation nor an element address; when it is one, and
    the node's declared type has been lowered to [ty], it inserts a load of
    [ty] from [v] at the insertion point and returns that load.  Only the
    kind of [v] decides.  The environment is left as it was, so the next
    access decides again and loads again. *)
Theorem GetLocalLoaded_recorded (node_id : Z) (v : LLVM.Value)
    (c : LoweringContext) :
  locals_ c !! node_id = Some v →
  (LLVM.isa_AllocaInst_or_GetElementPtrInst v = false →
     GetLocalLoaded node_id c = Ok (v, c)) ∧
  (LLVM.isa_AllocaInst_or_GetElementPtrInst v = true →
     ∀ node ty,
       Semantics.GetNode (semantics_ir_ c) node_id = Ok node →
       GetType (Semantics.type_id node) c = Ok ty →
       let load := LLVM.LoadInst ty v in
       let c' := Insert load c in
       GetLocalLoaded node_id c = Ok (load, c') ∧
       locals_ c' = locals_ c ∧
       GetLocalLoaded node_id c' = Ok (load, Insert load c') ∧
       (∀ h b m f bb,
          LLVM.insert_point (builder_ c) = Some (h, b) →
          llvm_module_ c = Some m →
          LLVM.mod_functions m !! h = Some f →
          LLVM.fn_blocks f !! b = Some bb →
          ∃ m' f',
            llvm_module_ c' = Some m' ∧
            LLVM.mod_functions m' !! h = Some f' ∧
            LLVM.fn_blocks f' !! b =
              Some (LLVM.mkBasicBlock (LLVM.bb_name bb)
                      (LLVM.bb_insts bb ++ [load])))).
Proof.
  intros Hv. split; intros Hkind.
  - unfold GetLocalLoaded, GetLocal. rewrite Hv. simpl. by rewrite Hkind.
  - intros node ty Hnode Hty load c'.
    assert (Hfirst : ∀ c0, locals_ c0 = locals_ c →
               semantics_ir_ c0 = semantics_ir_ c → types_ c0 = types_ c →
               GetLocalLoaded node_id c0 = Ok (load, Insert load c0)).
    { intros c0 Hl Hir Hts. unfold GetLocalLoaded, GetLocal.
      rewrite Hl, Hv. simpl. rewrite Hkind, Hir, Hnode. simpl.
      unfold GetType in *. rewrite Hts, Hty. reflexivity. }
    destruct (Insert_frame load c) as (Hl & Hts & _ & Hir & _).
    split; [by apply Hfirst|]. split; [exact Hl|].
    split; [by apply Hfirst|].
    intros h b m f bb. apply Insert_appends.
Qed.

(** *** Frames of the declaration pass *)

Lemma SetParamName_function (ir : Semantics.IR) (h : LLVM.FunctionHandle)
    (P : LLVM.Function → Prop) :
  (∀ f i name,
     P f → P (LLVM.mkFunction (LLVM.fn_type f) (LLVM.fn_linkage f)
                (LLVM.fn_name f) (<[i := name]> (LLVM.fn_arg_names f))
                (LLVM.fn_blocks f))) →
  ∀ i r m m' k,
    SetParamName ir h i r m = Ok m' →
    (∃ f, LLVM.mod_functions m !! k = Some f ∧ P f) →
    ∃ f, LLVM.mod_functions m' !! k = Some f ∧ P f.
Proof.
  intros HP i r m m' k Hset (f & Hf & HPf). unfold SetParamName in Hset.
  apply bind_Ok in Hset as (param & _ & Hset).
  apply bind_Ok in Hset as (bind & _ & Hset).
  apply bind_Ok in Hset as (name & _ & Hset).
  inversion Hset; subst; clear Hset. simpl.
  destruct (decide (h = k)) as [->|Hne].
  - rewrite list_lookup_alter_eq, Hf. simpl. eexists. split; [done|].
    by apply HP.
  - rewrite list_lookup_alter_ne by done. eauto.
Qed.

(** What a successful declaration is made of: the function is created
    at the end of the module with the signature computed from the caches,
    and only the module changes. *)
Lemma BuildFunctionDeclaration_Ok_inv (function_id : Z)
    (c c' : LoweringContext) (h : LLVM.FunctionHandle) :
  BuildFunctionDeclaration function_id c = Ok (h, c') →
  ∃ function param_refs args return_type m m' f,
    Semantics.GetFunction (semantics_ir_ c) function_id = Ok function ∧
    Semantics.GetNodeBlock (semantics_ir_ c)
      (Semantics.param_refs_id function) = Ok param_refs ∧
    collect (ParamType c) param_refs = Ok args ∧
    GetType (ReturnTypeId (semantics_ir_ c) function) c = Ok return_type ∧
    llvm_module_ c = Some m ∧
    h = length (LLVM.mod_functions m) ∧
    c' = set_llvm_module (Some m') c ∧
    LLVM.mod_functions m' !! h = Some f ∧
    LLVM.fn_type f = LLVM.FunctionTy return_type args false ∧
    LLVM.fn_linkage f = LLVM.ExternalLinkage ∧
    LLVM.fn_blocks f = [].
Proof.
  unfold BuildFunctionDeclaration. intros H.
  apply bind_Ok in H as (function & Hfn & H).
  apply bind_Ok in H as (param_refs & Hrefs & H).
  apply bind_Ok in H as (args & Hargs & H).
  apply bind_Ok in H as (return_type & Hret & H).
  apply bind_Ok in H as (name & Hname & H).
  apply bind_Ok in H as (m & Hm & H).
  apply bind_Ok in H as (m' & Hloop & H).
  apply checked_Ok in Hm. inversion H; subst; clear H. simpl in *.
  set (ty := LLVM.FunctionTy return_type args false) in *.
  pose (P := λ f : LLVM.Function,
          LLVM.fn_type f = ty ∧ LLVM.fn_linkage f = LLVM.ExternalLinkage ∧
          LLVM.fn_blocks f = []).
  assert (Hend : ∃ f, LLVM.mod_functions m' !! length (LLVM.mod_functions m)
                      = Some f ∧ P f).
  { eapply (for_each_preserves
              (λ m0, ∃ f, LLVM.mod_functions m0 !!
                            length (LLVM.mod_functions m) = Some f ∧ P f));
      [| exact Hloop |].
    - intros i r m0 m1 _ Hstep Hm0.
      eapply (SetParamName_function _ _ P); [| exact Hstep | exact Hm0].
      intros f i0 nm (? & ? & ?). by repeat split.
    - simpl. rewrite lookup_app_r by lia. rewrite Nat.sub_diag. simpl.
      eexists. split; [done|]. by repeat split. }
  destruct Hend as (f & Hf & Hty & Hlk & Hbl).
  by eexists function, param_refs, args, return_type, m, m', f.
Qed.

Lemma BuildFunctionDeclaration_frame (function_id : Z)
    (c c' : LoweringContext) (h : LLVM.FunctionHandle) :
  BuildFunctionDeclaration function_id c = Ok (h, c') →
  locals_ c' = locals_ c ∧ types_ c' = types_ c ∧
  functions_ c' = functions_ c ∧ semantics_ir_ c' = semantics_ir_ c ∧
  builder_ c' = builder_ c.
Proof.
  intros H. apply BuildFunctionDeclaration_Ok_inv in H
    as (? & ? & ? & ? & ? & m' & ? & _ & _ & _ & _ & _ & _ & -> & _).
  done.
Qed.

(** *** Running twice *)

(** C9: [Run] on a context whose module handle is empty fails fatally
    with "Run can only be called once"; a [Run] that completes hands the
    module handle held when the definition pass ends to the caller and
    leaves the context with an empty one, so a second [Run] on that context
    fails fatally. *)
Theorem Run_only_once :
  (∀ c, llvm_module_ c = None → Run c = Fatal RunOnlyOnce) ∧
  (∀ c m c', Run c = Ok (m, c') →
     (∃ c3, m = llvm_module_ c3 ∧ c' = set_llvm_module None c3) ∧
     llvm_module_ c' = None ∧ Run c' = Fatal RunOnlyOnce).
Proof.
  assert (Hentry : ∀ c, llvm_module_ c = None → Run c = Fatal RunOnlyOnce).
  { intros c Hc. unfold Run. by rewrite Hc. }
  split; [exact Hentry|].
  intros c m c' Hrun. unfold Run in Hrun.
  destruct (llvm_module_ c) as [m0|]; [|discriminate].
  apply bind_Ok in Hrun as (c1 & _ & Hrun).
  apply bind_Ok in Hrun as (c2 & _ & Hrun).
  apply bind_Ok in Hrun as (c3 & _ & Hrun).
  inversion Hrun; subst; clear Hrun.
  split; [by exists c3|]. split; [reflexivity | by apply Hentry].
Qed.

(** *** Return type of a declaration *)

(** C7: the function created by a successful declaration has a signature
    whose return type is the cached lowered type of the empty-tuple type
    when the function descriptor has no valid return type reference, and the
    cached lowered type of that reference when it has one. *)
Theorem BuildFunctionDeclaration_return_type (function_id : Z)
    (c c' : LoweringContext) (h : LLVM.FunctionHandle)
    (function : Semantics.Function) :
  Semantics.GetFunction (semantics_ir_ c) function_id = Ok function →
  BuildFunctionDeclaration function_id c = Ok (h, c') →
  ∃ m' f return_type,
    llvm_module_ c' = Some m' ∧
    LLVM.mod_functions m' !! h = Some f ∧
    LLVM.return_type (LLVM.fn_type f) = Some return_type ∧
    (Semantics.is_valid (Semantics.return_type_id function) = false →
       GetType (Semantics.empty_tuple_type_id (semantics_ir_ c)) c
       = Ok return_type) ∧
    (Semantics.is_valid (Semantics.return_type_id function) = true →
       GetType (Semantics.return_type_id function) c = Ok return_type).
Proof.
  intros Hfn H. apply BuildFunctionDeclaration_Ok_inv in H
    as (fn' & refs & args & rt & m & m' & f & Hfn' & _ & _ & Hrt & _ & _
        & -> & Hf & Hty & _).
  rewrite Hfn in Hfn'. inversion Hfn'; subst fn'; clear Hfn'.
  exists m', f, rt. split; [done|]. split; [done|].
  rewrite Hty. split; [done|]. unfold ReturnTypeId in Hrt.
  split; intros Hvalid; by rewrite Hvalid in Hrt.
Qed.

(** *** The declaration pass and the caches *)

Lemma LowerDeclaration_frame (p i : nat) (c c' : LoweringContext) :
  LowerDeclaration p i c = Ok c' →
  locals_ c' = locals_ c ∧ types_ c' = types_ c ∧
  semantics_ir_ c' = semantics_ir_ c ∧ builder_ c' = builder_ c ∧
  ∃ h d, BuildFunctionDeclaration (Z.of_nat i) c = Ok (h, d) ∧
         functions_ c' = <[i := Some h]> (functions_ c).
Proof.
  unfold LowerDeclaration. intros H. apply bind_Ok in H as ([h d] & Hd & H).
  inversion H; subst; clear H. simpl.
  destruct (BuildFunctionDeclaration_frame _ _ _ _ Hd)
    as (Hl & Ht & Hf & Hir & Hb).
  repeat split; try done. exists h, d. by rewrite Hf.
Qed.

(** The declaration pass over the first [k] functions writes the handle
    returned for each of them into its cache element, and nothing else. *)
Lemma LowerDeclarations_spec (k : nat) (c c' : LoweringContext) :
  LowerDeclarations k c = Ok c' → (k ≤ length (functions_ c))%nat →
  locals_ c' = locals_ c ∧ types_ c' = types_ c ∧
  semantics_ir_ c' = semantics_ir_ c ∧ builder_ c' = builder_ c ∧
  length (functions_ c') = length (functions_ c) ∧
  (∀ j, (k ≤ j)%nat → functions_ c' !! j = functions_ c !! j) ∧
  (∀ i, (i < k)%nat →
     ∃ d d' h, LowerDeclarations i c = Ok d ∧
               BuildFunctionDeclaration (Z.of_nat i) d = Ok (h, d') ∧
               functions_ c' !! i = Some (Some h)).
Proof.
  revert c'. induction k as [|k IH]; intros c' Hrun Hlen.
  - inversion Hrun; subst. repeat split; try done. intros i Hi. lia.
  - unfold LowerDeclarations in Hrun. rewrite for_each_seq_S in Hrun.
    apply bind_Ok in Hrun as (d & Hd & Hstep).
    destruct (IH d Hd ltac:(lia)) as (Hl & Ht & Hir & Hb & Hn & Hge & Hlt).
    destruct (LowerDeclaration_frame _ _ _ _ Hstep)
      as (Hl' & Ht' & Hir' & Hb' & h & d' & Hdecl & Hf').
    repeat split; try congruence.
    + rewrite Hf', length_insert. done.
    + intros j Hj. rewrite Hf', list_lookup_insert_ne by lia.
      apply Hge. lia.
    + intros i Hi. destruct (decide (i = k)) as [->|Hne].
      * exists d, d', h. repeat split; try done.
        rewrite Hf'. apply list_lookup_insert_eq. lia.
      * destruct (Hlt i ltac:(lia)) as (di & di' & hi & ? & ? & Hi').
        exists di, di', hi. repeat split; try done.
        rewrite Hf', list_lookup_insert_ne by done. exact Hi'.
Qed.

Lemma ReserveFunctions_length (c : LoweringContext) :
  length (functions_ (ReserveFunctions c)) =
  Semantics.functions_size (semantics_ir_ c).
Proof.
  unfold ReserveFunctions, resize_for_overwrite. simpl.
  rewrite length_app, length_take, length_replicate. lia.
Qed.

Lemma GetFunction_populated (i : nat) (h : LLVM.FunctionHandle)
    (c : LoweringContext) :
  functions_ c !! i = Some (Some h) → GetFunction (Z.of_nat i) c = Ok h.
Proof.
  intros H. unfold GetFunction. by rewrite at_index_of_nat, H.
Qed.

(** *** Functions without a body *)

(** C8: for a function without a body block, definition lowering returns
    at once with the context exactly as it was: no instruction, no basic
    block, the same Local Value Environment.  The declaration pass of [Run]
    still leaves a populated Function Cache entry for that function. *)
Theorem BuildFunctionDefinition_no_body (function_id : Z)
    (function : Semantics.Function) (c : LoweringContext) :
  Semantics.GetFunction (semantics_ir_ c) function_id = Ok function →
  Semantics.is_valid (Semantics.body_id function) = false →
  BuildFunctionDefinition function_id c = Ok c ∧
  (∀ c2,
     LowerDeclarations (Semantics.functions_size (semantics_ir_ c))
       (ReserveFunctions c) = Ok c2 →
     ∃ h, GetFunction function_id c2 = Ok h ∧
          BuildFunctionDefinition function_id c2 = Ok c2).
Proof.
  intros Hfn Hbody.
  assert (Hdef : ∀ c0, semantics_ir_ c0 = semantics_ir_ c →
            BuildFunctionDefinition function_id c0 = Ok c0).
  { intros c0 Hir. unfold BuildFunctionDefinition.
    rewrite Hir, Hfn. simpl. by rewrite Hbody. }
  split; [by apply Hdef|]. intros c2 Hdecl.
  apply checked_Ok, at_index_Some in Hfn as (Hpos & Hfn).
  apply lookup_lt_Some in Hfn. fold (Semantics.functions_size (semantics_ir_ c)) in Hfn.
  pose proof (ReserveFunctions_length c) as Hlen.
  destruct (LowerDeclarations_spec _ _ _ Hdecl ltac:(lia))
    as (_ & _ & Hir & _ & _ & _ & Hlt).
  destruct (Hlt (Z.to_nat function_id) Hfn) as (_ & _ & h & _ & _ & Hh).
  exists h. split.
  - apply GetFunction_populated in Hh. by rewrite Z2Nat.id in Hh.
  - apply Hdef. by rewrite Hir.
Qed.

(** *** The declaration pass and the Local Value Environment *)

Lemma collect_is_Ok {A B} (f : A → Outcome B) (l : list A) :
  Forall (λ x, is_Ok (f x)) l → is_Ok (collect f l).
Proof.
  induction 1 as [|x l [y Hy] _ [ys Hys]]; simpl; [by eexists|].
  rewrite Hy. simpl. rewrite Hys. by eexists.
Qed.

Lemma for_each_is_Ok {A St} (body : nat → A → St → Outcome St) (l : list A) :
  Forall (λ x, ∀ i s, is_Ok (body i x s)) l →
  ∀ i s, is_Ok (for_each body i l s).
Proof.
  induction 1 as [|x l Hx _ IH]; intros i s; simpl; [by eexists|].
  destruct (Hx i s) as [s' Hs']. rewrite Hs'. simpl. apply IH.
Qed.

Lemma BuildFunctionDeclaration_Declarable (function_id : Z)
    (c : LoweringContext) :
  Declarable c function_id → is_Ok (BuildFunctionDeclaration function_id c).
Proof.
  intros (function & refs & Hfn & Hrefs & Hparams & [rt Hrt] & [nm Hnm]
          & [m Hm]).
  unfold BuildFunctionDeclaration. rewrite Hfn. simpl. rewrite Hrefs. simpl.
  destruct (collect_is_Ok (ParamType c) refs) as [args Hargs].
  { eapply Forall_impl; [exact Hparams|]. intros r (n & Hn & _ & _ & Hty).
    unfold ParamType. rewrite Hn. exact Hty. }
  rewrite Hargs. simpl. rewrite Hrt. simpl. rewrite Hnm. simpl.
  unfold llvm_module. rewrite Hm. simpl.
  assert (Hnames : Forall (λ r, ∀ i s,
            is_Ok (SetParamName (semantics_ir_ c)
                     (length (LLVM.mod_functions m)) i r s)) refs).
  { eapply Forall_impl; [exact Hparams|].
    intros r (n & Hn & Hk & [name Hname] & _) i s.
    unfold SetParamName. rewrite Hn. simpl.
    unfold Semantics.GetAsBindName. rewrite Hk. simpl. rewrite Hname.
    by eexists. }
  match goal with |- is_Ok (for_each _ ?i _ ?s ≫= _) =>
    destruct (for_each_is_Ok _ _ Hnames i s) as [m' Hm']
  end.
  rewrite Hm'. by eexists.
Qed.

(** C10: a declaration neither reads nor writes the Local Value
    Environment: it leaves the environment as it was, and with any other
    environment it gives the same handle and the same context apart from
    that environment.  Its success does not depend on the storage the
    parameters are bound to, so a function that binds two parameters to the
    same storage is declared like any other. *)
Theorem BuildFunctionDeclaration_locals (function_id : Z)
    (c : LoweringContext) :
  (∀ h c', BuildFunctionDeclaration function_id c = Ok (h, c') →
           locals_ c' = locals_ c) ∧
  (∀ l, BuildFunctionDeclaration function_id (set_locals l c) =
        match BuildFunctionDeclaration function_id c with
        | Ok (h, c') => Ok (h, set_locals l c')
        | Fatal e => Fatal e
        end) ∧
  (Declarable c function_id →
   is_Ok (BuildFunctionDeclaration function_id c)).
Proof.
  split; [|split].
  - intros h c' H. by apply BuildFunctionDeclaration_frame in H as (? & _).
  - intros l. unfold BuildFunctionDeclaration.
    change (semantics_ir_ (set_locals l c)) with (semantics_ir_ c).
    change (ParamType (set_locals l c)) with (ParamType c).
    change (llvm_module (set_locals l c)) with (llvm_module c).
    destruct (Semantics.GetFunction _ _) as [function|]; simpl; [|done].
    destruct (Semantics.GetNodeBlock _ _) as [refs|]; simpl; [|done].
    destruct (collect _ _) as [args|]; simpl; [|done].
    change (GetType (ReturnTypeId (semantics_ir_ c) function)
              (set_locals l c))
      with (GetType (ReturnTypeId (semantics_ir_ c) function) c).
    destruct (GetType _ _) as [rt|]; simpl; [|done].
    destruct (Semantics.GetString _ _) as [name|]; simpl; [|done].
    destruct (llvm_module c) as [m|]; simpl; [|done].
    by destruct (for_each _ _ _ _) as [m'|].
  - apply BuildFunctionDeclaration_Declarable.
Qed.

(** *** Binding the parameters *)

Lemma EnterFunction_frame (h : LLVM.FunctionHandle) (c : LoweringContext) :
  locals_ (EnterFunction h c) = locals_ c ∧
  types_ (EnterFunction h c) = types_ c ∧
  functions_ (EnterFunction h c) = functions_ c ∧
  semantics_ir_ (EnterFunction h c) = semantics_ir_ c.
Proof. unfold EnterFunction. by destruct (llvm_module_ c). Qed.

Lemma BindParam_Ok (ir : Semantics.IR) (h : LLVM.FunctionHandle) (i : nat)
    (ref : Z) (c c' : LoweringContext) :
  BindParam ir h i ref c = Ok c' ↔
  ∃ s, ParamStorage ir ref = Ok s ∧ locals_ c !! s = None ∧
       c' = set_locals (<[s := LLVM.Argument h i]> (locals_ c)) c.
Proof.
  unfold BindParam, ParamStorage. split.
  - intros H. apply bind_Ok in H as (param & Hp & H).
    apply bind_Ok in H as (bind & Hb & H).
    destruct (locals_ c !! bind.2) eqn:Hl; [discriminate|].
    inversion H; subst; clear H. exists bind.2.
    rewrite Hp. simpl. by rewrite Hb.
  - intros (s & Hs & Hl & ->).
    destruct (Semantics.GetNode ir ref) as [param|]; [|discriminate].
    simpl in *.
    destruct (Semantics.GetAsBindName param) as [bind|]; [|discriminate].
    simpl in *. inversion Hs; subst. by rewrite Hl.
Qed.

Lemma BindParam_Fatal (ir : Semantics.IR) (h : LLVM.FunctionHandle) (i : nat)
    (ref s : Z) (c : LoweringContext) :
  ParamStorage ir ref = Ok s → is_Some (locals_ c !! s) →
  BindParam ir h i ref c = Fatal (DuplicateParam ref).
Proof.
  unfold BindParam, ParamStorage. intros Hs [v Hv].
  destruct (Semantics.GetNode ir ref) as [param|]; [|discriminate].
  simpl in *.
  destruct (Semantics.GetAsBindName param) as [bind|]; [|discriminate].
  simpl in *. inversion Hs; subst. by rewrite Hv.
Qed.

(** When the parameter loop completes, the storages were pairwise distinct
    and absent from the environment. *)
Lemma BindParams_Ok_inv (ir : Semantics.IR) (h : LLVM.FunctionHandle)
    (refs : list Z) :
  ∀ i c c', for_each (BindParam ir h) i refs c = Ok c' →
  ∃ ss, collect (ParamStorage ir) refs = Ok ss ∧ NoDup ss ∧
        ∀ s, s ∈ ss → locals_ c !! s = None.
Proof.
  induction refs as [|ref refs IH]; intros i c c' H; simpl in H.
  - exists []. repeat split; [constructor|]. intros s Hs. by inversion Hs.
  - apply bind_Ok in H as (c1 & H1 & H).
    apply BindParam_Ok in H1 as (s & Hs & Hl & ->).
    destruct (IH _ _ _ H) as (ss & Hss & Hnd & Hfresh). simpl in Hfresh.
    exists (s :: ss). simpl. rewrite Hs. simpl. rewrite Hss. simpl.
    split; [done|]. split.
    + constructor; [|done]. intros Hin. apply Hfresh in Hin.
      by rewrite lookup_insert_eq in Hin.
    + intros s' Hs'. apply elem_of_cons in Hs' as [->|Hs']; [done|].
      pose proof (Hfresh s' Hs') as Hn.
      destruct (decide (s = s')) as [->|Hne].
      * by rewrite lookup_insert_eq in Hn.
      * by rewrite lookup_insert_ne in Hn.
Qed.

(** With pairwise distinct storages absent from the environment, the loop
    completes and maps the [k]-th storage to the [k]-th argument, changing
    nothing else. *)
Lemma BindParams_NoDup (ir : Semantics.IR) (h : LLVM.FunctionHandle)
    (refs : list Z) :
  ∀ ss i c,
    collect (ParamStorage ir) refs = Ok ss → NoDup ss →
    (∀ s, s ∈ ss → locals_ c !! s = None) →
    ∃ c', for_each (BindParam ir h) i refs c = Ok c' ∧
          (∀ k s, ss !! k = Some s →
                  locals_ c' !! s = Some (LLVM.Argument h (i + k))) ∧
          (∀ s, s ∉ ss → locals_ c' !! s = locals_ c !! s) ∧
          c' = set_locals (locals_ c') c.
Proof.
  induction refs as [|ref refs IH]; intros ss i c Hss Hnd Hfresh;
    simpl in Hss.
  - inversion Hss; subst. exists c. simpl. repeat split; try done.
    by destruct c.
  - apply bind_Ok in Hss as (s & Hs & Hss).
    apply bind_Ok in Hss as (ss' & Hss' & Hss). inversion Hss; subst ss.
    clear Hss. apply NoDup_cons in Hnd as [Hnotin Hnd].
    set (c1 := set_locals (<[s := LLVM.Argument h i]> (locals_ c)) c).
    assert (H1 : BindParam ir h i ref c = Ok c1).
    { apply BindParam_Ok. exists s. repeat split; [done|].
      apply Hfresh. by left. }
    destruct (IH ss' (S i) c1 Hss' Hnd) as (c' & Hrun & Hargs & Hrest & Hc').
    { intros s' Hin. simpl. rewrite lookup_insert_ne.
      - apply Hfresh. by right.
      - intros ->. done. }
    exists c'. simpl. rewrite H1. simpl. split; [done|]. split; [|split].
    + intros [|k] s' Hk; simpl in Hk.
      * inversion Hk; subst s'. rewrite (Hrest s Hnotin). simpl.
        rewrite lookup_insert_eq. by rewrite Nat.add_0_r.
      * rewrite (Hargs k s' Hk). by rewrite Nat.add_succ_r.
    + intros s' Hs'. apply not_elem_of_cons in Hs' as [Hne Hs'].
      rewrite (Hrest s' Hs'). simpl. by rewrite lookup_insert_ne.
    + rewrite Hc'. by destruct c.
Qed.

(** The loop fails at the first parameter whose storage was already
    bound by an earlier parameter. *)
Lemma BindParams_dup (ir : Semantics.IR) (h : LLVM.FunctionHandle)
    (before after : list Z) (ref s : Z) (pre : list Z) (i : nat)
    (c : LoweringContext) :
  collect (ParamStorage ir) before = Ok pre → NoDup pre →
  (∀ s', s' ∈ pre → locals_ c !! s' = None) →
  ParamStorage ir ref = Ok s → s ∈ pre →
  for_each (BindParam ir h) i (before ++ ref :: after) c
  = Fatal (DuplicateParam ref).
Proof.
  intros Hpre Hnd Hfresh Hs Hin.
  destruct (BindParams_NoDup ir h before pre i c Hpre Hnd Hfresh)
    as (c1 & Hrun & Hargs & _ & _).
  rewrite for_each_app, Hrun. simpl.
  apply list_elem_of_lookup in Hin as [k Hk].
  rewrite (BindParam_Fatal ir h _ ref s c1 Hs); [done|].
  rewrite (Hargs k s Hk). by eexists.
Qed.

(** The definition of a function that has a body, is declared, and is
    entered with an empty environment: the parameter loop, the body loop,
    and the clearing of the environment. *)
Lemma BuildFunctionDefinition_body (function_id : Z)
    (function : Semantics.Function) (c : LoweringContext)
    (h : LLVM.FunctionHandle) (refs : list Z) :
  Semantics.GetFunction (semantics_ir_ c) function_id = Ok function →
  Semantics.is_valid (Semantics.body_id function) = true →
  GetFunction function_id c = Ok h →
  locals_ c = ∅ →
  Semantics.GetNodeBlock (semantics_ir_ c) (Semantics.param_refs_id function)
    = Ok refs →
  BuildFunctionDefinition function_id c =
    c2 ← for_each (BindParam (semantics_ir_ c) h) 0 refs (EnterFunction h c);
    body ← Semantics.GetNodeBlock (semantics_ir_ c)
             (Semantics.body_id function);
    c3 ← for_each (LowerNode (semantics_ir_ c)) 0 body c2;
    Ok (set_locals ∅ c3).
Proof.
  intros Hfn Hbody Hh Hl Hrefs. unfold BuildFunctionDefinition.
  rewrite Hfn. simpl. rewrite Hbody. simpl. rewrite Hh. simpl.
  destruct (EnterFunction_frame h c) as (Hl' & _).
  rewrite decide_True by (by rewrite Hl', Hl, dom_empty_L).
  by rewrite Hrefs.
Qed.

(** C5, as amended: for a function that has a body, when two parameters
    are bound to the same storage id, definition lowering fails fatally;
    when the function is declared and the environment is empty on entry, it
    fails at the first parameter whose storage an earlier parameter has
    bound, with "duplicate param" for that parameter, and nothing is
    overwritten.  When the storage ids are pairwise distinct, the parameter
    loop maps the [k]-th storage id to the [k]-th argument of the declared
    function and binds nothing else. *)
Theorem BuildFunctionDefinition_params (function_id : Z)
    (function : Semantics.Function) (c : LoweringContext) (ss : list Z) :
  Semantics.GetFunction (semantics_ir_ c) function_id = Ok function →
  Semantics.is_valid (Semantics.body_id function) = true →
  ParamStorages (semantics_ir_ c) function = Ok ss →
  (¬ NoDup ss → is_Fatal (BuildFunctionDefinition function_id c)) ∧
  (∀ h refs before ref after pre s,
     GetFunction function_id c = Ok h → locals_ c = ∅ →
     Semantics.GetNodeBlock (semantics_ir_ c)
       (Semantics.param_refs_id function) = Ok refs →
     refs = before ++ ref :: after →
     collect (ParamStorage (semantics_ir_ c)) before = Ok pre →
     NoDup pre →
     ParamStorage (semantics_ir_ c) ref = Ok s → s ∈ pre →
     BuildFunctionDefinition function_id c = Fatal (DuplicateParam ref)) ∧
  (NoDup ss →
   ∀ h refs,
     GetFunction function_id c = Ok h → locals_ c = ∅ →
     Semantics.GetNodeBlock (semantics_ir_ c)
       (Semantics.param_refs_id function) = Ok refs →
     ∃ c2,
       for_each (BindParam (semantics_ir_ c) h) 0 refs (EnterFunction h c)
       = Ok c2 ∧
       (∀ k s, ss !! k = Some s →
               locals_ c2 !! s = Some (LLVM.Argument h k)) ∧
       (∀ s, s ∉ ss → locals_ c2 !! s = None) ∧
       BuildFunctionDefinition function_id c =
         body ← Semantics.GetNodeBlock (semantics_ir_ c)
                  (Semantics.body_id function);
         c3 ← for_each (LowerNode (semantics_ir_ c)) 0 body c2;
         Ok (set_locals ∅ c3)).
Proof.
  intros Hfn Hbody Hss. split; [|split].
  - intros Hdup. apply not_Ok_Fatal. intros [c' H].
    apply Hdup. unfold BuildFunctionDefinition in H.
    rewrite Hfn in H. simpl in H. rewrite Hbody in H. simpl in H.
    apply bind_Ok in H as (h & _ & H).
    case_decide; [|discriminate].
    apply bind_Ok in H as (refs & Hrefs & H).
    apply bind_Ok in H as (c2 & Hc2 & _).
    apply BindParams_Ok_inv in Hc2 as (ss' & Hss' & Hnd & _).
    unfold ParamStorages in Hss. rewrite Hrefs in Hss. simpl in Hss.
    rewrite Hss' in Hss. by inversion Hss; subst.
  - intros h refs before ref after pre s Hh Hl Hrefs -> Hpre Hnd Hs Hin.
    rewrite (BuildFunctionDefinition_body _ _ _ _ _ Hfn Hbody Hh Hl Hrefs).
    rewrite (BindParams_dup _ _ _ _ _ s pre); try done.
    intros s' _. destruct (EnterFunction_frame h c) as (-> & _).
    by rewrite Hl.
  - intros Hnd h refs Hh Hl Hrefs.
    unfold ParamStorages in Hss. rewrite Hrefs in Hss. simpl in Hss.
    destruct (BindParams_NoDup (semantics_ir_ c) h refs ss 0
                (EnterFunction h c) Hss Hnd)
      as (c2 & Hrun & Hargs & Hrest & _).
    { intros s' _. destruct (EnterFunction_frame h c) as (-> & _).
      by rewrite Hl. }
    exists c2. split; [done|]. split; [exact Hargs|]. split.
    + intros s' Hs'. rewrite (Hrest s' Hs').
      destruct (EnterFunction_frame h c) as (-> & _). by rewrite Hl.
    + rewrite (BuildFunctionDefinition_body _ _ _ _ _ Hfn Hbody Hh Hl Hrefs).
      by rewrite Hrun.
Qed.

(** *** The Local Value Environment around a definition *)

Lemma LowerTypes_frame (c c1 : LoweringContext) :
  LowerTypes c = Ok c1 →
  locals_ c1 = locals_ c ∧ functions_ c1 = functions_ c ∧
  semantics_ir_ c1 = semantics_ir_ c ∧ llvm_module_ c1 = llvm_module_ c.
Proof.
  unfold LowerTypes. intros H.
  eapply (for_each_preserves
            (λ c', locals_ c' = locals_ c ∧ functions_ c' = functions_ c ∧
                   semantics_ir_ c' = semantics_ir_ c ∧
                   llvm_module_ c' = llvm_module_ c)); [| exact H | done].
  intros i t c0 c0' _ Hstep HP. unfold LowerType in Hstep.
  apply bind_Ok in Hstep as (ty & _ & Hstep). by inversion Hstep; subst.
Qed.

Lemma BuildFunctionDefinition_locals (function_id : Z)
    (c c' : LoweringContext) :
  BuildFunctionDefinition function_id c = Ok c' →
  (∀ function,
     Semantics.GetFunction (semantics_ir_ c) function_id = Ok function →
     Semantics.is_valid (Semantics.body_id function) = true →
     locals_ c = ∅ ∧ locals_ c' = ∅) ∧
  (locals_ c = ∅ → locals_ c' = ∅).
Proof.
  unfold BuildFunctionDefinition. intros H.
  apply bind_Ok in H as (fn & Hfn & H).
  destruct (Semantics.is_valid (Semantics.body_id fn)) eqn:Hbody; simpl in H.
  - apply bind_Ok in H as (h & _ & H). case_decide as Hdom; [|discriminate].
    apply bind_Ok in H as (refs & _ & H). apply bind_Ok in H as (c2 & _ & H).
    apply bind_Ok in H as (body & _ & H). apply bind_Ok in H as (c3 & _ & H).
    inversion H; subst; clear H. simpl.
    apply dom_empty_iff_L in Hdom.
    destruct (EnterFunction_frame h c) as (Hl & _). rewrite Hl in Hdom.
    done.
  - inversion H; subst; clear H. split; [|done].
    intros function Hfn'. rewrite Hfn in Hfn'. inversion Hfn'; subst.
    by rewrite Hbody.
Qed.

Lemma LowerDefinitions_S (n : nat) (c : LoweringContext) :
  LowerDefinitions (S n) c =
  LowerDefinitions n c ≫= BuildFunctionDefinition (Z.of_nat n).
Proof. unfold LowerDefinitions. by rewrite for_each_seq_S. Qed.

Lemma LowerDefinitions_locals (n : nat) (c c' : LoweringContext) :
  locals_ c = ∅ → LowerDefinitions n c = Ok c' → locals_ c' = ∅.
Proof.
  intros Hl. revert c'. induction n as [|n IH]; intros c' H.
  - by inversion H; subst.
  - rewrite LowerDefinitions_S in H. apply bind_Ok in H as (c1 & H1 & H).
    apply BuildFunctionDefinition_locals in H as [_ H]. apply H. by apply IH.
Qed.

(** The states between which [Run] lowers the definition of function [i]. *)
Lemma LowerDefinitions_around (n i : nat) (c c' : LoweringContext) :
  LowerDefinitions n c = Ok c' → (i < n)%nat →
  ∃ before after,
    LowerDefinitions i c = Ok before ∧
    BuildFunctionDefinition (Z.of_nat i) before = Ok after ∧
    LowerDefinitions (S i) c = Ok after.
Proof.
  intros H Hi.
  destruct (for_each_seq_prefix LowerDefinition n (S i) c c' H Hi)
    as [after Hafter].
  fold (LowerDefinitions (S i) c) in Hafter.
  pose proof Hafter as Hstep. rewrite LowerDefinitions_S in Hstep.
  apply bind_Ok in Hstep as (before & Hbefore & Hstep).
  by exists before, after.
Qed.

(** The passes of a [Run] that completes. *)
Lemma Run_Ok_inv (c : LoweringContext)
    (r : option LLVM.Module_ * LoweringContext) :
  Run c = Ok r →
  ∃ c1 c2 c3,
    LowerTypes c = Ok c1 ∧
    LowerDeclarations (Semantics.functions_size (semantics_ir_ c))
      (ReserveFunctions c1) = Ok c2 ∧
    LowerDefinitions (Semantics.functions_size (semantics_ir_ c)) c2
      = Ok c3 ∧
    r = (llvm_module_ c3, set_llvm_module None c3).
Proof.
  unfold Run. intros H. destruct (llvm_module_ c); [|discriminate].
  apply bind_Ok in H as (c1 & H1 & H). apply bind_Ok in H as (c2 & H2 & H).
  apply bind_Ok in H as (c3 & H3 & H). inversion H; subst.
  by exists c1, c2, c3.
Qed.

(** C6: a definition with a body that completes was entered with an empty
    Local Value Environment and leaves an empty one; with a body, a declared
    function and a non-empty environment it fails fatally on entry.  The
    constructor leaves the environment empty, and in a [Run] that starts
    with an empty environment the environment is empty whenever the
    definition lowering of a function begins and whenever it completes. *)
Theorem locals_empty_around_definition :
  (∀ function_id function c c',
     Semantics.GetFunction (semantics_ir_ c) function_id = Ok function →
     Semantics.is_valid (Semantics.body_id function) = true →
     BuildFunctionDefinition function_id c = Ok c' →
     locals_ c = ∅ ∧ locals_ c' = ∅) ∧
  (∀ function_id function c h,
     Semantics.GetFunction (semantics_ir_ c) function_id = Ok function →
     Semantics.is_valid (Semantics.body_id function) = true →
     GetFunction function_id c = Ok h →
     locals_ c ≠ ∅ →
     BuildFunctionDefinition function_id c = Fatal LocalsNotEmpty) ∧
  (∀ module_name ir c,
     NewLoweringContext module_name ir = Ok c → locals_ c = ∅) ∧
  (∀ c c1 c2,
     locals_ c = ∅ →
     LowerTypes c = Ok c1 →
     LowerDeclarations (Semantics.functions_size (semantics_ir_ c))
       (ReserveFunctions c1) = Ok c2 →
     ∀ i before,
       LowerDefinitions i c2 = Ok before →
       locals_ before = ∅ ∧
       ∀ after, BuildFunctionDefinition (Z.of_nat i) before = Ok after →
                locals_ after = ∅) ∧
  (∀ c r,
     locals_ c = ∅ → Run c = Ok r →
     ∃ c1 c2,
       LowerTypes c = Ok c1 ∧
       LowerDeclarations (Semantics.functions_size (semantics_ir_ c))
         (ReserveFunctions c1) = Ok c2 ∧
       ∀ i, (i < Semantics.functions_size (semantics_ir_ c))%nat →
         ∃ before after,
           LowerDefinitions i c2 = Ok before ∧
           BuildFunctionDefinition (Z.of_nat i) before = Ok after ∧
           LowerDefinitions (S i) c2 = Ok after ∧
           locals_ before = ∅ ∧ locals_ after = ∅).
Proof.
  assert (Hdeclared : ∀ c c1 c2,
            locals_ c = ∅ → LowerTypes c = Ok c1 →
            LowerDeclarations (Semantics.functions_size (semantics_ir_ c))
              (ReserveFunctions c1) = Ok c2 →
            locals_ c2 = ∅).
  { intros c c1 c2 Hl H1 H2.
    destruct (LowerTypes_frame _ _ H1) as (Hl1 & _ & Hir1 & _).
    apply LowerDeclarations_spec in H2 as (Hl2 & _).
    - rewrite Hl2. simpl. congruence.
    - by rewrite ReserveFunctions_length, Hir1. }
  split; [|split; [|split; [|split]]].
  - intros function_id function c c' Hfn Hbody H.
    apply BuildFunctionDefinition_locals in H as [H _]. by eapply H.
  - intros function_id function c h Hfn Hbody Hh Hl.
    unfold BuildFunctionDefinition. rewrite Hfn. simpl. rewrite Hbody. simpl.
    rewrite Hh. simpl. rewrite decide_False; [done|].
    intros Hdom. apply dom_empty_iff_L in Hdom.
    destruct (EnterFunction_frame h c) as (Hl' & _). congruence.
  - intros module_name ir c H. unfold NewLoweringContext in H.
    destruct (Semantics.has_errors ir); [discriminate|]. by inversion H.
  - intros c c1 c2 Hl H1 H2 i before Hb.
    assert (Hlb : locals_ before = ∅).
    { eapply LowerDefinitions_locals; [|exact Hb]. by eapply Hdeclared. }
    split; [exact Hlb|]. intros after Hstep.
    apply BuildFunctionDefinition_locals in Hstep as [_ Hstep]. by apply Hstep.
  - intros c r Hl Hrun.
    apply Run_Ok_inv in Hrun as (c1 & c2 & c3 & H1 & H2 & H3 & _).
    exists c1, c2. split; [done|]. split; [done|].
    pose proof (Hdeclared c c1 c2 Hl H1 H2) as Hl2.
    intros i Hi.
    destruct (LowerDefinitions_around _ i _ _ H3 Hi)
      as (before & after & Hb & Hstep & Ha).
    exists before, after. repeat split; try done.
    + by eapply LowerDefinitions_locals.
    + by eapply LowerDefinitions_locals.
Qed.

(** *** Declaration before definition *)

Section HandlerFrame.

(** The node handlers reach the Function Cache only through [GetFunction]:
    no handler changes it. *)
Hypothesis handlers_keep_functions :
  ∀ k c node_id node c',
    LoweringHandle k c node_id node = Ok c' → functions_ c' = functions_ c.

Lemma BuildFunctionDefinition_functions (function_id : Z)
    (c c' : LoweringContext) :
  BuildFunctionDefinition function_id c = Ok c' →
  functions_ c' = functions_ c.
Proof.
  unfold BuildFunctionDefinition. intros H.
  apply bind_Ok in H as (fn & Hfn & H).
  destruct (Semantics.is_valid (Semantics.body_id fn)); simpl in H;
    [|by inversion H].
  apply bind_Ok in H as (h & _ & H). case_decide; [|discriminate].
  apply bind_Ok in H as (refs & _ & H). apply bind_Ok in H as (c2 & Hc2 & H).
  apply bind_Ok in H as (body & _ & H). apply bind_Ok in H as (c3 & Hc3 & H).
  inversion H; subst; clear H. simpl.
  destruct (EnterFunction_frame h c) as (_ & _ & Hf & _).
  assert (Hf2 : functions_ c2 = functions_ c).
  { eapply (for_each_preserves (λ c0, functions_ c0 = functions_ c));
      [| exact Hc2 | exact Hf].
    intros i r c0 c0' _ Hstep HP.
    apply BindParam_Ok in Hstep as (s & _ & _ & ->). done. }
  eapply (for_each_preserves (λ c0, functions_ c0 = functions_ c));
    [| exact Hc3 | exact Hf2].
  intros i r c0 c0' _ Hstep HP. unfold LowerNode in Hstep.
  apply bind_Ok in Hstep as (node & _ & Hstep).
  apply handlers_keep_functions in Hstep. congruence.
Qed.

Lemma LowerDefinitions_functions (n : nat) (c c' : LoweringContext) :
  LowerDefinitions n c = Ok c' → functions_ c' = functions_ c.
Proof.
  revert c'. induction n as [|n IH]; intros c' H.
  - by inversion H; subst.
  - rewrite LowerDefinitions_S in H. apply bind_Ok in H as (c1 & H1 & H).
    apply BuildFunctionDefinition_functions in H. rewrite H. by apply IH.
Qed.

(** C2: once the declaration pass of [Run] has completed, the Function
    Cache holds, for every function, the handle its declaration returned;
    whenever the definition pass reaches the definition of a function, the
    lookup of any function id gives that same handle.  The definition of a
    function [f] that has a body looks up [f] itself and works on the handle
    its declaration returned: the entry block is created in that function,
    the insertion point is set there, and the parameters are bound to the
    arguments of that function.  A [Run] that completes has reached the
    definition of every function this way. *)
Theorem declaration_handle_at_definition (c c1 c2 : LoweringContext) :
  LowerTypes c = Ok c1 →
  LowerDeclarations (Semantics.functions_size (semantics_ir_ c))
    (ReserveFunctions c1) = Ok c2 →
  (∀ f, (f < Semantics.functions_size (semantics_ir_ c))%nat →
     ∃ d d' h,
       LowerDeclarations f (ReserveFunctions c1) = Ok d ∧
       BuildFunctionDeclaration (Z.of_nat f) d = Ok (h, d') ∧
       functions_ c2 !! f = Some (Some h) ∧
       (∀ i before,
          LowerDefinitions i c2 = Ok before →
          GetFunction (Z.of_nat f) before = Ok h) ∧
       (∀ before function,
          LowerDefinitions f c2 = Ok before →
          Semantics.GetFunction (semantics_ir_ before) (Z.of_nat f)
            = Ok function →
          Semantics.is_valid (Semantics.body_id function) = true →
          BuildFunctionDefinition (Z.of_nat f) before =
            (if decide (dom (locals_ (EnterFunction h before)) = ∅) then
               param_refs ←
                 Semantics.GetNodeBlock (semantics_ir_ before)
                   (Semantics.param_refs_id function);
               bound ←
                 for_each (BindParam (semantics_ir_ before) h) 0 param_refs
                   (EnterFunction h before);
               body ←
                 Semantics.GetNodeBlock (semantics_ir_ before)
                   (Semantics.body_id function);
               lowered ←
                 for_each (LowerNode (semantics_ir_ before)) 0 body bound;
               Ok (set_locals ∅ lowered)
             else Fatal LocalsNotEmpty) ∧
          ∀ m lf,
            llvm_module_ before = Some m →
            LLVM.mod_functions m !! h = Some lf →
            builder_ (EnterFunction h before)
            = LLVM.mkIRBuilder (Some (h, length (LLVM.fn_blocks lf))) ∧
            ∃ m',
              llvm_module_ (EnterFunction h before) = Some m' ∧
              LLVM.mod_functions m' !! h =
                Some (LLVM.mkFunction (LLVM.fn_type lf) (LLVM.fn_linkage lf)
                        (LLVM.fn_name lf) (LLVM.fn_arg_names lf)
                        (LLVM.fn_blocks lf ++
                         [LLVM.mkBasicBlock "entry" []])))) ∧
  (∀ r, Run c = Ok r →
     ∀ i, (i ≤ Semantics.functions_size (semantics_ir_ c))%nat →
       is_Ok (LowerDefinitions i c2)).
Proof.
  intros H1 H2. split.
  - assert (Hlen : (Semantics.functions_size (semantics_ir_ c)
                    ≤ length (functions_ (ReserveFunctions c1)))%nat).
    { rewrite ReserveFunctions_length.
      by destruct (LowerTypes_frame _ _ H1) as (_ & _ & -> & _). }
    destruct (LowerDeclarations_spec _ _ _ H2 Hlen)
      as (_ & _ & _ & _ & _ & _ & Hpop).
    intros f Hf. destruct (Hpop f Hf) as (d & d' & h & Hd & Hdecl & Hh).
    assert (Hlookup : ∀ i before,
              LowerDefinitions i c2 = Ok before →
              GetFunction (Z.of_nat f) before = Ok h).
    { intros i before Hb. apply GetFunction_populated.
      by rewrite (LowerDefinitions_functions _ _ _ Hb). }
    exists d, d', h. split; [done|]. split; [done|]. split; [done|].
    split; [exact Hlookup|].
    intros before function Hb Hfn Hbody. split.
    + unfold BuildFunctionDefinition. rewrite Hfn. simpl.
      rewrite Hbody. simpl. by rewrite (Hlookup f before Hb).
    + intros m lf Hm Hlf. unfold EnterFunction. rewrite Hm. simpl.
      unfold LLVM.FunctionHandle in *. rewrite Hlf. simpl.
      split; [done|]. eexists. split; [done|]. simpl.
      by rewrite list_lookup_alter_eq, Hlf.
  - intros r Hrun i Hi.
    apply Run_Ok_inv in Hrun as (c1' & c2' & c3 & H1' & H2' & H3 & _).
    rewrite H1 in H1'. inversion H1'; subst c1'.
    rewrite H2 in H2'. inversion H2'; subst c2'.
    by eapply for_each_seq_prefix.
Qed.

End HandlerFrame.

(** *** Types outside the built-in range *)

(** [BuildType] on an id that the first switch does not handle. *)
Lemma BuildType_by_node (node_id : Z) (c : LoweringContext) :
  node_id ≠ EmptyTupleType → node_id ≠ FloatingPointType →
  node_id ≠ IntegerType →
  BuildType node_id c =
    node ← Semantics.GetNode (semantics_ir_ c) node_id;
    match Semantics.kind node with
    | Semantics.StructType =>
        block ← Semantics.GetAsStructType node;
        refs ← Semantics.GetNodeBlock (semantics_ir_ c) block;
        subtypes ← collect (BuildMemberType c) refs;
        Ok (LLVM.StructTy "StructLiteralType" subtypes)
    | _ => Fatal (CannotUseNodeAsType node_id)
    end.
Proof.
  intros He Hf Hi. unfold BuildType. by rewrite !decide_False by done.
Qed.

Lemma BuildMemberType_Ok (c : LoweringContext) (ref_id : Z)
    (sub : LLVM.Type_) :
  BuildMemberType c ref_id = Ok sub ↔ MemberLowersTo c ref_id sub.
Proof.
  unfold BuildMemberType, MemberLowersTo, InBuiltinRange. split.
  - intros H. apply bind_Ok in H as (member & Hm & H).
    case_decide; [|discriminate]. exists member. repeat split; try done.
    unfold GetType in H. apply checked_Ok in H.
    destruct (at_index (types_ c) (Semantics.type_id member)) eqn:E;
      [|discriminate].
    by apply at_index_Some in E as [? _].
  - intros (member & Hm & [_ Hlt] & Hty). rewrite Hm. simpl.
    by rewrite decide_True.
Qed.

(** The loop over the members stops at the first member that fails. *)
Lemma collect_first_Fatal {A B} (f : A → Outcome B) (before after : list A)
    (x : A) (e : FatalError) :
  is_Ok (collect f before) → f x = Fatal e →
  collect f (before ++ x :: after) = Fatal e.
Proof.
  induction before as [|y before IH]; simpl; intros [r Hr] Hx.
  - by rewrite Hx.
  - apply bind_Ok in Hr as (y' & Hy & Hr). rewrite Hy. simpl.
    apply bind_Ok in Hr as (ys & Hys & _).
    rewrite IH; [done | by eexists | done].
Qed.

Section BuiltinRange.

(** The three built-in kinds [BuildType] switches on are valid built-in
    kinds. *)
Hypothesis builtin_kinds_in_range :
  InBuiltinRange EmptyTupleType ∧ InBuiltinRange FloatingPointType ∧
  InBuiltinRange IntegerType.

(** C4: on a type id outside the built-in range, [BuildType] dereferences
    the node.  A node of any kind but struct type is fatal, "cannot use node
    as type".  For a struct type, the first member whose type id is at or
    above the built-in range is fatal with that type id (a negative member
    type id passes that check and fails in the cache lookup, with that id).
    [BuildType] returns exactly when the node is a struct type all of whose
    member type ids are in the built-in range and lowered, and then returns
    the struct type named "StructLiteralType" over the lowered member types
    in member order. *)
Theorem BuildType_outside_builtin_range (node_id : Z) (c : LoweringContext) :
  ¬ InBuiltinRange node_id →
  (∀ node,
     Semantics.GetNode (semantics_ir_ c) node_id = Ok node →
     Semantics.kind node ≠ Semantics.StructType →
     BuildType node_id c = Fatal (CannotUseNodeAsType node_id)) ∧
  (∀ node refs before ref after lowered member,
     Semantics.GetNode (semantics_ir_ c) node_id = Ok node →
     Semantics.kind node = Semantics.StructType →
     Semantics.GetNodeBlock (semantics_ir_ c) (Semantics.arg0 node)
       = Ok refs →
     refs = before ++ ref :: after →
     Forall2 (MemberLowersTo c) before lowered →
     Semantics.GetNode (semantics_ir_ c) ref = Ok member →
     (ValidCount ≤ Semantics.type_id member →
      BuildType node_id c
      = Fatal (MemberTypeNotBuiltin (Semantics.type_id member))) ∧
     (Semantics.type_id member < 0 →
      BuildType node_id c = Fatal (MissingType (Semantics.type_id member)))) ∧
  (∀ ty,
     BuildType node_id c = Ok ty ↔
     ∃ node refs subtypes,
       Semantics.GetNode (semantics_ir_ c) node_id = Ok node ∧
       Semantics.kind node = Semantics.StructType ∧
       Semantics.GetNodeBlock (semantics_ir_ c) (Semantics.arg0 node)
         = Ok refs ∧
       Forall2 (MemberLowersTo c) refs subtypes ∧
       ty = LLVM.StructTy "StructLiteralType" subtypes).
Proof.
  intros Hout.
  destruct builtin_kinds_in_range as (He & Hf & Hi).
  assert (Hnode := BuildType_by_node node_id c
            ltac:(intros ->; done) ltac:(intros ->; done)
            ltac:(intros ->; done)).
  split; [|split].
  - intros node Hn Hk. rewrite Hnode, Hn. simpl.
    by destruct (Semantics.kind node).
  - intros node refs before ref after lowered member Hn Hk Hrefs -> Hbefore
           Hmember.
    assert (Hpre : is_Ok (collect (BuildMemberType c) before)).
    { exists lowered. apply collect_Ok_Forall2.
      eapply Forall2_impl; [exact Hbefore|].
      intros r t. apply BuildMemberType_Ok. }
    rewrite Hnode, Hn. simpl. rewrite Hk. simpl.
    unfold Semantics.GetAsStructType. rewrite Hk. simpl. rewrite Hrefs. simpl.
    split; intros Hid.
    + rewrite (collect_first_Fatal _ _ _ _
                 (MemberTypeNotBuiltin (Semantics.type_id member)) Hpre);
        [done|].
      unfold BuildMemberType. rewrite Hmember. simpl.
      by rewrite decide_False by lia.
    + rewrite (collect_first_Fatal _ _ _ _
                 (MissingType (Semantics.type_id member)) Hpre); [done|].
      unfold BuildMemberType. rewrite Hmember. simpl.
      destruct He as [He1 He2]. rewrite decide_True by lia.
      unfold GetType, at_index. by rewrite decide_False by lia.
  - intros ty. rewrite Hnode. split.
    + intros H. apply bind_Ok in H as (node & Hn & H).
      destruct (Semantics.kind node) eqn:Hk; try discriminate.
      apply bind_Ok in H as (block & Hb & H).
      unfold Semantics.GetAsStructType in Hb. rewrite Hk in Hb.
      inversion Hb; subst block; clear Hb.
      apply bind_Ok in H as (refs & Hrefs & H).
      apply bind_Ok in H as (subtypes & Hsub & H).
      inversion H; subst ty; clear H.
      exists node, refs, subtypes. repeat split; try done.
      apply collect_Ok_Forall2 in Hsub.
      eapply Forall2_impl; [exact Hsub|].
      intros r t. apply BuildMemberType_Ok.
    + intros (node & refs & subtypes & Hn & Hk & Hrefs & Hsub & ->).
      rewrite Hn. simpl. rewrite Hk. simpl.
      unfold Semantics.GetAsStructType. rewrite Hk. simpl.
      rewrite Hrefs. simpl.
      assert (Hc : collect (BuildMemberType c) refs = Ok subtypes).
      { apply collect_Ok_Forall2.
        eapply Forall2_impl; [exact Hsub|].
        intros r t. apply BuildMemberType_Ok. }
      by rewrite Hc.
Qed.

End BuiltinRange.

(** *** Built-in types *)

Section BuiltinKinds.

(** The case labels of the first switch of [BuildType] are distinct. *)
Hypothesis builtin_kinds_distinct :
  EmptyTupleType ≠ FloatingPointType ∧ EmptyTupleType ≠ IntegerType ∧
  FloatingPointType ≠ IntegerType.

(** C3: [BuildType] on the generic integer type gives the 32-bit integer
    type, on the generic floating-point type the double type, and on the
    empty-tuple type a struct type without members that carries the
    canonical name of that built-in kind, in every context. *)
Theorem BuildType_builtin (c : LoweringContext) :
  BuildType IntegerType c = Ok LLVM.Int32Ty ∧
  BuildType FloatingPointType c = Ok LLVM.DoubleTy ∧
  BuildType EmptyTupleType c =
    Ok (LLVM.StructTy (builtin_name EmptyTupleType) []).
Proof.
  destruct builtin_kinds_distinct as (Hef & Hei & Hfi).
  unfold BuildType. repeat split.
  - rewrite decide_False by congruence.
    rewrite decide_False by congruence.
    by rewrite decide_True.
  - rewrite decide_False by congruence.
    by rewrite decide_True.
  - by rewrite decide_True.
Qed.

End BuiltinKinds.

(** *** The function a declaration creates *)

(** The loop that names the parameters, run on the function just created
    at the end of the module: it writes the interned names into the argument
    names from position [i] on, and touches nothing else. *)
Lemma SetParamNames_created (ir : Semantics.IR) (nm : string)
    (fs : list LLVM.Function) (ty : LLVM.Type_) (lk : LLVM.Linkage)
    (n : string) (bl : list LLVM.BasicBlock) (refs : list Z) :
  ∀ i l m',
    for_each (SetParamName ir (length fs)) i refs
      (LLVM.mkModule nm (fs ++ [LLVM.mkFunction ty lk n l bl])) = Ok m' →
    length l = (i + length refs)%nat →
    ∃ names,
      collect (ParamName ir) refs = Ok names ∧
      m' = LLVM.mkModule nm
             (fs ++ [LLVM.mkFunction ty lk n (take i l ++ names) bl]).
Proof.
  induction refs as [|ref refs IH]; intros i l m' H Hlen; simpl in *.
  - inversion H; subst. exists []. split; [done|].
    by rewrite app_nil_r, take_ge by lia.
  - apply bind_Ok in H as (m1 & Hstep & H). unfold SetParamName in Hstep.
    apply bind_Ok in Hstep as (param & Hparam & Hstep).
    apply bind_Ok in Hstep as (bind & Hbind & Hstep).
    apply bind_Ok in Hstep as (name & Hname & Hstep).
    inversion Hstep; subst m1; clear Hstep.
    unfold LLVM.set_arg_name, LLVM.update_function in H. simpl in H.
    replace (length fs) with (length fs + 0)%nat in H at 2 by lia.
    rewrite alter_app_r in H. simpl in H.
    apply IH in H as (names & Hnames & ->);
      [|rewrite length_insert; lia].
    exists (name :: names). split.
    { assert (Hn : ParamName ir ref = Ok name).
      { unfold ParamName. rewrite Hparam. simpl. by rewrite Hbind. }
      simpl. rewrite Hn. simpl. by rewrite Hnames. }
    do 4 f_equal.
    rewrite (take_S_r _ _ name) by (apply list_lookup_insert_eq; lia).
    rewrite take_insert_ge by lia. by rewrite <- app_assoc.
Qed.

(** A successful declaration, in full: one function is appended to the
    module, and nothing else in the context changes. *)
Lemma BuildFunctionDeclaration_appends (function_id : Z)
    (c c' : LoweringContext) (h : LLVM.FunctionHandle) :
  BuildFunctionDeclaration function_id c = Ok (h, c') →
  ∃ function param_refs args return_type name names m,
    Semantics.GetFunction (semantics_ir_ c) function_id = Ok function ∧
    Semantics.GetNodeBlock (semantics_ir_ c)
      (Semantics.param_refs_id function) = Ok param_refs ∧
    collect (ParamType c) param_refs = Ok args ∧
    GetType (ReturnTypeId (semantics_ir_ c) function) c = Ok return_type ∧
    Semantics.GetString (semantics_ir_ c) (Semantics.name_id function)
      = Ok name ∧
    collect (ParamName (semantics_ir_ c)) param_refs = Ok names ∧
    llvm_module_ c = Some m ∧
    h = length (LLVM.mod_functions m) ∧
    c' = set_llvm_module
           (Some (LLVM.mkModule (LLVM.mod_name m)
                    (LLVM.mod_functions m ++
                     [LLVM.mkFunction
                        (LLVM.FunctionTy return_type args false)
                        LLVM.ExternalLinkage name names []]))) c.
Proof.
  unfold BuildFunctionDeclaration. intros H.
  apply bind_Ok in H as (function & Hfn & H).
  apply bind_Ok in H as (param_refs & Hrefs & H).
  apply bind_Ok in H as (args & Hargs & H).
  apply bind_Ok in H as (return_type & Hret & H).
  apply bind_Ok in H as (name & Hname & H).
  apply bind_Ok in H as (m & Hm & H).
  apply bind_Ok in H as (m' & Hloop & H).
  apply checked_Ok in Hm. inversion H; subst; clear H. simpl in Hloop.
  apply SetParamNames_created in Hloop as (names & Hnames & ->).
  - exists function, param_refs, args, return_type, name, names, m.
    by rewrite take_0.
  - rewrite length_replicate. simpl.
    apply collect_Ok_Forall2, Forall2_length in Hargs. lia.
Qed.

(** X1: a declaration that completes has created, at the end of the
    module, one function with external linkage, created under the interned
    name of the semantic function, with no basic block, whose signature is
    not variadic and has the cached types of the parameter nodes in
    parameter order, and whose arguments are given the names interned for
    the parameter bindings, in order.  The functions already in the module
    are unchanged, the handle returned designates the new function, and the
    rest of the context is as before. *)
Theorem BuildFunctionDeclaration_created (function_id : Z)
    (c c' : LoweringContext) (h : LLVM.FunctionHandle) :
  BuildFunctionDeclaration function_id c = Ok (h, c') →
  ∃ function param_refs args return_type name names m lf,
    Semantics.GetFunction (semantics_ir_ c) function_id = Ok function ∧
    Semantics.GetNodeBlock (semantics_ir_ c)
      (Semantics.param_refs_id function) = Ok param_refs ∧
    collect (ParamType c) param_refs = Ok args ∧
    GetType (ReturnTypeId (semantics_ir_ c) function) c = Ok return_type ∧
    Semantics.GetString (semantics_ir_ c) (Semantics.name_id function)
      = Ok name ∧
    collect (ParamName (semantics_ir_ c)) param_refs = Ok names ∧
    lf = LLVM.mkFunction (LLVM.FunctionTy return_type args false)
           LLVM.ExternalLinkage name names [] ∧
    llvm_module_ c = Some m ∧
    llvm_module_ c' =
      Some (LLVM.mkModule (LLVM.mod_name m) (LLVM.mod_functions m ++ [lf])) ∧
    h = length (LLVM.mod_functions m) ∧
    builder_ c' = builder_ c ∧ semantics_ir_ c' = semantics_ir_ c ∧
    types_ c' = types_ c ∧ functions_ c' = functions_ c ∧
    locals_ c' = locals_ c.
Proof.
  intros H. apply BuildFunctionDeclaration_appends in H
    as (function & param_refs & args & return_type & name & names & m
        & Hfn & Hrefs & Hargs & Hret & Hname & Hnames & Hm & -> & ->).
  by eexists function, param_refs, args, return_type, name, names, m, _.
Qed.

(** *** The functions the declaration pass creates *)

Lemma LowerDeclarations_S (n : nat) (c : LoweringContext) :
  LowerDeclarations (S n) c =
  LowerDeclarations n c ≫= LowerDeclaration n n.
Proof. unfold LowerDeclarations. by rewrite for_each_seq_S. Qed.

(** The declaration pass over the first [n] functions appends one function
    per semantic function to the module, in id order, and records the
    position of each in the Function Cache. *)
Lemma LowerDeclarations_appends (n : nat) (c c2 : LoweringContext)
    (m : LLVM.Module_) :
  llvm_module_ c = Some m → (n ≤ length (functions_ c))%nat →
  LowerDeclarations n c = Ok c2 →
  ∃ created,
    llvm_module_ c2 =
      Some (LLVM.mkModule (LLVM.mod_name m)
              (LLVM.mod_functions m ++ created)) ∧
    length created = n ∧
    ∀ i, (i < n)%nat →
      functions_ c2 !! i
      = Some (Some (length (LLVM.mod_functions m) + i)%nat) ∧
      ∃ function name lf,
        Semantics.GetFunction (semantics_ir_ c) (Z.of_nat i) = Ok function ∧
        Semantics.GetString (semantics_ir_ c) (Semantics.name_id function)
          = Ok name ∧
        created !! i = Some lf ∧ LLVM.fn_name lf = name ∧
        LLVM.fn_linkage lf = LLVM.ExternalLinkage ∧ LLVM.fn_blocks lf = [].
Proof.
  intros Hm. revert c2. induction n as [|n IH]; intros c2 Hlen Hrun.
  - inversion Hrun; subst. exists []. rewrite app_nil_r.
    split; [by destruct m|]. split; [done|]. intros i Hi. lia.
  - rewrite LowerDeclarations_S in Hrun.
    apply bind_Ok in Hrun as (d & Hd & Hstep).
    destruct (IH d ltac:(lia) Hd) as (created & Hmd & Hcreated & Hall).
    destruct (LowerDeclarations_spec _ _ _ Hd ltac:(lia))
      as (_ & _ & Hir & _ & Hlend & _ & _).
    unfold LowerDeclaration in Hstep.
    apply bind_Ok in Hstep as ([h d'] & Hdecl & Hstep).
    inversion Hstep; subst c2; clear Hstep. simpl.
    apply BuildFunctionDeclaration_appends in Hdecl
      as (function & refs & args & rt & name & names & md & Hfn & _ & _ & _
          & Hname & _ & Hmd' & -> & ->).
    rewrite Hmd in Hmd'. inversion Hmd'; subst md; clear Hmd'. simpl.
    rewrite Hir in Hfn, Hname. simpl. unfold LLVM.FunctionHandle in *.
    eexists (created ++ [_]). rewrite app_assoc. split; [reflexivity|].
    split; [rewrite length_app; simpl; lia|].
    intros i Hi. destruct (decide (i = n)) as [->|Hne].
    + split.
      * rewrite list_lookup_insert_eq by lia.
        by rewrite length_app, Hcreated.
      * exists function, name,
          (LLVM.mkFunction (LLVM.FunctionTy rt args false)
             LLVM.ExternalLinkage name names []).
        split; [done|]. split; [done|]. split; [|done].
        rewrite lookup_app_r by lia. by rewrite Hcreated, Nat.sub_diag.
    + destruct (Hall i ltac:(lia))
        as (Hh & fn & nm & lf & ? & ? & Hlf & ? & ? & ?).
      split; [by rewrite list_lookup_insert_ne|].
      exists fn, nm, lf. split; [done|]. split; [done|]. split; [|done].
      rewrite lookup_app_l by lia. exact Hlf.
Qed.

(** X2: when the declaration pass completes on a context that holds the
    module, the Function Cache entry of every function designates a function
    of the module created under that function's interned name, with
    external linkage and no basic block; no two function ids share a handle,
    and the functions the module held before are still there, followed by
    one new function per semantic function. *)
Theorem LowerDeclarations_handles (n : nat) (c c2 : LoweringContext)
    (m : LLVM.Module_) :
  llvm_module_ c = Some m → (n ≤ length (functions_ c))%nat →
  LowerDeclarations n c = Ok c2 →
  ∃ m2,
    llvm_module_ c2 = Some m2 ∧
    LLVM.mod_name m2 = LLVM.mod_name m ∧
    length (LLVM.mod_functions m2) = (length (LLVM.mod_functions m) + n)%nat ∧
    take (length (LLVM.mod_functions m)) (LLVM.mod_functions m2)
    = LLVM.mod_functions m ∧
    (∀ i, (i < n)%nat →
       ∃ h function name lf,
         GetFunction (Z.of_nat i) c2 = Ok h ∧
         Semantics.GetFunction (semantics_ir_ c) (Z.of_nat i) = Ok function ∧
         Semantics.GetString (semantics_ir_ c) (Semantics.name_id function)
           = Ok name ∧
         LLVM.mod_functions m2 !! h = Some lf ∧
         LLVM.fn_name lf = name ∧
         LLVM.fn_linkage lf = LLVM.ExternalLinkage ∧
         LLVM.fn_blocks lf = []) ∧
    (∀ i j hi hj,
       (i < n)%nat → (j < n)%nat →
       GetFunction (Z.of_nat i) c2 = Ok hi →
       GetFunction (Z.of_nat j) c2 = Ok hj →
       hi = hj → i = j).
Proof.
  intros Hm Hlen Hrun.
  destruct (LowerDeclarations_appends n c c2 m Hm Hlen Hrun)
    as (created & Hm2 & Hcreated & Hall).
  eexists. split; [exact Hm2|]. simpl. split; [done|].
  split; [by rewrite length_app, Hcreated|].
  split; [by rewrite take_app_length|]. split.
  - intros i Hi.
    destruct (Hall i Hi) as (Hh & fn & nm & lf & ? & ? & Hlf & ? & ? & ?).
    exists (length (LLVM.mod_functions m) + i)%nat, fn, nm, lf.
    split; [by apply GetFunction_populated|]. repeat split; try done.
    rewrite lookup_app_r by lia.
    by replace (length (LLVM.mod_functions m) + i
                - length (LLVM.mod_functions m))%nat with i by lia.
  - intros i j hi hj Hi Hj Hhi Hhj Heq.
    destruct (Hall i Hi) as (Hci & _). destruct (Hall j Hj) as (Hcj & _).
    apply GetFunction_populated in Hci, Hcj.
    rewrite Hci in Hhi. rewrite Hcj in Hhj.
    inversion Hhi; inversion Hhj; subst. lia.
Qed.

(** *** The type pass *)

(** The rounds of the type loop from position [i] on: each writes the type
    it built into its own cache element and leaves the elements before it
    as they are. *)
Lemma LowerType_rounds (l : list Z) :
  ∀ i c c',
    for_each LowerType i l c = Ok c' →
    (i + length l ≤ length (types_ c))%nat →
    length (types_ c') = length (types_ c) ∧
    (∀ j, (j < i)%nat → types_ c' !! j = types_ c !! j) ∧
    (∀ k t, l !! k = Some t →
       ∃ ck ty,
         BuildType t ck = Ok ty ∧
         types_ c' !! (i + k)%nat = Some (Some ty) ∧
         semantics_ir_ ck = semantics_ir_ c ∧
         ∀ j, (j < i + k)%nat → types_ ck !! j = types_ c' !! j).
Proof.
  induction l as [|x l IH]; intros i c c' H Hlen; simpl in *.
  - inversion H; subst. by repeat split.
  - apply bind_Ok in H as (c1 & Hstep & H). unfold LowerType in Hstep.
    apply bind_Ok in Hstep as (ty & Hty & Hstep).
    inversion Hstep; subst c1; clear Hstep.
    destruct (IH (S i) _ c' H) as (Hl & Hbefore & Hrounds).
    { simpl. rewrite length_insert. lia. }
    simpl in *. rewrite length_insert in Hl.
    split; [done|]. split.
    + intros j Hj. rewrite (Hbefore j ltac:(lia)).
      by rewrite list_lookup_insert_ne by lia.
    + intros [|k] t Hk; simpl in Hk.
      * inversion Hk; subst t. exists c, ty. rewrite Nat.add_0_r.
        split; [done|]. split; [|split; [done|]].
        -- rewrite (Hbefore i ltac:(lia)).
           apply list_lookup_insert_eq. lia.
        -- intros j Hj. rewrite (Hbefore j ltac:(lia)).
           by rewrite list_lookup_insert_ne by lia.
      * destruct (Hrounds k t Hk) as (ck & ty' & ? & Hentry & ? & Hlow).
        exists ck, ty'. rewrite Nat.add_succ_r.
        split; [done|]. split; [done|]. split; [done|].
        intros j Hj. apply Hlow. lia.
Qed.

(** X3: when the type pass completes, the Type Cache has one element per
    entry of the type table of the semantic IR, every one of them is
    populated, and element [i] holds the type [BuildType] returned for the
    [i]-th entry, built when the elements below [i] were already what they
    are at the end.  The module handle, the Function Cache, the Local Value
    Environment and the semantic IR are as before. *)
Theorem LowerTypes_populated (c c1 : LoweringContext) :
  LowerTypes c = Ok c1 →
  length (types_ c1) = length (Semantics.types (semantics_ir_ c)) ∧
  (∀ i t, Semantics.types (semantics_ir_ c) !! i = Some t →
     ∃ ci ty,
       BuildType t ci = Ok ty ∧
       GetType (Z.of_nat i) c1 = Ok ty ∧
       semantics_ir_ ci = semantics_ir_ c ∧
       ∀ j, (j < i)%nat → types_ ci !! j = types_ c1 !! j) ∧
  llvm_module_ c1 = llvm_module_ c ∧ functions_ c1 = functions_ c ∧
  locals_ c1 = locals_ c ∧ semantics_ir_ c1 = semantics_ir_ c.
Proof.
  intros H. destruct (LowerTypes_frame _ _ H) as (Hl & Hf & Hir & Hm).
  unfold LowerTypes in H.
  assert (Hlen : length (resize_for_overwrite
                           (length (Semantics.types (semantics_ir_ c)))
                           (types_ c))
                 = length (Semantics.types (semantics_ir_ c))).
  { unfold resize_for_overwrite.
    rewrite length_app, length_take, length_replicate. lia. }
  apply LowerType_rounds in H as (Hlen' & _ & Hrounds);
    [|simpl; lia].
  simpl in *. split; [congruence|]. split; [|done].
  intros i t Hi. destruct (Hrounds i t Hi) as (ci & ty & Hty & He & ? & Hlow).
  exists ci, ty. repeat split; try done.
  unfold GetType. by rewrite at_index_of_nat, He.
Qed.

(** *** Loaded values *)

(** X4: the value [GetLocalLoaded] returns is never a stack allocation or
    an element address: it is the recorded value, or a load from the
    recorded value.  The call leaves the Local Value Environment, both
    caches, the insertion point and the semantic IR as they were. *)
Theorem GetLocalLoaded_materialized (node_id : Z) (c c' : LoweringContext)
    (v : LLVM.Value) :
  GetLocalLoaded node_id c = Ok (v, c') →
  LLVM.isa_AllocaInst_or_GetElementPtrInst v = false ∧
  (∃ value, locals_ c !! node_id = Some value ∧
            (v = value ∨ ∃ ty, v = LLVM.LoadInst ty value)) ∧
  locals_ c' = locals_ c ∧ types_ c' = types_ c ∧
  functions_ c' = functions_ c ∧ builder_ c' = builder_ c ∧
  semantics_ir_ c' = semantics_ir_ c.
Proof.
  unfold GetLocalLoaded. intros H. apply bind_Ok in H as (value & Hv & H).
  apply checked_Ok in Hv.
  destruct (LLVM.isa_AllocaInst_or_GetElementPtrInst value) eqn:Hkind.
  - apply bind_Ok in H as (node & _ & H).
    apply bind_Ok in H as (ty & _ & H). inversion H; subst; clear H.
    destruct (Insert_frame (LLVM.LoadInst ty value) c)
      as (? & ? & ? & ? & ?).
    split; [done|]. split; [|done]. exists value. split; [done|].
    right. by exists ty.
  - inversion H; subst; clear H. split; [done|]. split; [|done].
    exists v. split; [done|]. by left.
Qed.

(** *** Parameters in the body *)

(** X5: in the definition of a function with a body, declared, entered
    with an empty environment and with pairwise distinct parameter
    storages, the body loop starts in a context where [GetLocalLoaded] of
    the [k]-th parameter storage is the [k]-th argument of the declared
    function, returned as it is: no load is inserted and the context does
    not change. *)
Theorem parameters_need_no_load (function_id : Z)
    (function : Semantics.Function) (c : LoweringContext)
    (h : LLVM.FunctionHandle) (refs ss : list Z) :
  Semantics.GetFunction (semantics_ir_ c) function_id = Ok function →
  Semantics.is_valid (Semantics.body_id function) = true →
  GetFunction function_id c = Ok h →
  locals_ c = ∅ →
  Semantics.GetNodeBlock (semantics_ir_ c) (Semantics.param_refs_id function)
    = Ok refs →
  collect (ParamStorage (semantics_ir_ c)) refs = Ok ss →
  NoDup ss →
  ∃ c2,
    BuildFunctionDefinition function_id c =
      (body ← Semantics.GetNodeBlock (semantics_ir_ c)
                (Semantics.body_id function);
       c3 ← for_each (LowerNode (semantics_ir_ c)) 0 body c2;
       Ok (set_locals ∅ c3)) ∧
    ∀ k s, ss !! k = Some s →
           GetLocalLoaded s c2 = Ok (LLVM.Argument h k, c2).
Proof.
  intros Hfn Hbody Hh Hl Hrefs Hss Hnd.
  destruct (BindParams_NoDup (semantics_ir_ c) h refs ss 0
              (EnterFunction h c) Hss Hnd)
    as (c2 & Hrun & Hargs & _ & _).
  { intros s _. destruct (EnterFunction_frame h c) as (-> & _).
    by rewrite Hl. }
  exists c2. split.
  - rewrite (BuildFunctionDefinition_body _ _ _ _ _ Hfn Hbody Hh Hl Hrefs).
    by rewrite Hrun.
  - intros k s Hk. unfold GetLocalLoaded, GetLocal.
    by rewrite (Hargs k s Hk).
Qed.

(** *** A body without nodes *)

(** X6: the definition of a declared function whose body block has no
    node, entered with an empty environment and with pairwise distinct
    parameter storages, calls no handler: it appends one block named
    "entry", without instructions, to the declared function, leaves the
    insertion point in that block and the environment empty, and changes
    neither the other functions of the module nor the caches. *)
Theorem BuildFunctionDefinition_empty_body (function_id : Z)
    (function : Semantics.Function) (c : LoweringContext)
    (h : LLVM.FunctionHandle) (refs ss : list Z) (m : LLVM.Module_)
    (lf : LLVM.Function) :
  Semantics.GetFunction (semantics_ir_ c) function_id = Ok function →
  Semantics.is_valid (Semantics.body_id function) = true →
  Semantics.GetNodeBlock (semantics_ir_ c) (Semantics.body_id function)
    = Ok [] →
  GetFunction function_id c = Ok h →
  locals_ c = ∅ →
  Semantics.GetNodeBlock (semantics_ir_ c) (Semantics.param_refs_id function)
    = Ok refs →
  collect (ParamStorage (semantics_ir_ c)) refs = Ok ss →
  NoDup ss →
  llvm_module_ c = Some m →
  LLVM.mod_functions m !! h = Some lf →
  ∃ m',
    BuildFunctionDefinition function_id c =
      Ok (mkLoweringContext (Some m')
            (LLVM.mkIRBuilder (Some (h, length (LLVM.fn_blocks lf))))
            (semantics_ir_ c) (types_ c) (functions_ c) ∅) ∧
    LLVM.mod_name m' = LLVM.mod_name m ∧
    length (LLVM.mod_functions m') = length (LLVM.mod_functions m) ∧
    LLVM.mod_functions m' !! h =
      Some (LLVM.mkFunction (LLVM.fn_type lf) (LLVM.fn_linkage lf)
              (LLVM.fn_name lf) (LLVM.fn_arg_names lf)
              (LLVM.fn_blocks lf ++ [LLVM.mkBasicBlock "entry" []])) ∧
    ∀ k, k ≠ h → LLVM.mod_functions m' !! k = LLVM.mod_functions m !! k.
Proof.
  intros Hfn Hbody Hempty Hh Hl Hrefs Hss Hnd Hm Hlf.
  destruct (BindParams_NoDup (semantics_ir_ c) h refs ss 0
              (EnterFunction h c) Hss Hnd)
    as (c2 & Hrun & _ & _ & Hc2).
  { intros s _. destruct (EnterFunction_frame h c) as (-> & _).
    by rewrite Hl. }
  exists (LLVM.BasicBlock_Create "entry" h m).2.
  split; [|split; [done|split; [|split]]].
  - rewrite (BuildFunctionDefinition_body _ _ _ _ _ Hfn Hbody Hh Hl Hrefs).
    rewrite Hrun. simpl. rewrite Hempty. simpl. rewrite Hc2.
    unfold EnterFunction. rewrite Hm. simpl. by rewrite Hlf.
  - simpl. apply length_alter.
  - simpl. rewrite list_lookup_alter_eq.
    unfold LLVM.FunctionHandle in *. by rewrite Hlf.
  - intros k Hk. simpl. by rewrite list_lookup_alter_ne.
Qed.

(** *** A program of declarations *)

Lemma LowerDefinitions_no_body (n : nat) (c : LoweringContext) :
  Forall (λ function,
            Semantics.is_valid (Semantics.body_id function) = false)
    (Semantics.functions (semantics_ir_ c)) →
  (n ≤ Semantics.functions_size (semantics_ir_ c))%nat →
  LowerDefinitions n c = Ok c.
Proof.
  intros Hall. induction n as [|n IH]; intros Hn; [done|].
  rewrite LowerDefinitions_S, IH by lia. simpl.
  destruct (lookup_lt_is_Some_2 (Semantics.functions (semantics_ir_ c)) n)
    as [function Hfn]; [done|].
  unfold BuildFunctionDefinition, Semantics.GetFunction.
  rewrite at_index_of_nat, Hfn. simpl.
  rewrite Forall_lookup in Hall. by rewrite (Hall n function Hfn).
Qed.

(** X7: when no function of the program has a body, the definition pass
    changes nothing and calls no handler: a [Run] that completes returns the
    module as the declaration pass left it, which holds the functions it
    held before followed by one function per semantic function, none of
    them with a basic block. *)
Theorem Run_declarations_only (c : LoweringContext) (m : LLVM.Module_)
    (r : option LLVM.Module_ * LoweringContext) :
  Forall (λ function,
            Semantics.is_valid (Semantics.body_id function) = false)
    (Semantics.functions (semantics_ir_ c)) →
  llvm_module_ c = Some m →
  Run c = Ok r →
  ∃ c1 c2 created,
    LowerTypes c = Ok c1 ∧
    LowerDeclarations (Semantics.functions_size (semantics_ir_ c))
      (ReserveFunctions c1) = Ok c2 ∧
    r = (llvm_module_ c2, set_llvm_module None c2) ∧
    llvm_module_ c2 =
      Some (LLVM.mkModule (LLVM.mod_name m)
              (LLVM.mod_functions m ++ created)) ∧
    length created = Semantics.functions_size (semantics_ir_ c) ∧
    Forall (λ lf, LLVM.fn_blocks lf = []) created.
Proof.
  intros Hall Hm Hrun.
  apply Run_Ok_inv in Hrun as (c1 & c2 & c3 & H1 & H2 & H3 & ->).
  destruct (LowerTypes_frame _ _ H1) as (_ & _ & Hir1 & Hm1).
  assert (Hlen : (Semantics.functions_size (semantics_ir_ c)
                  ≤ length (functions_ (ReserveFunctions c1)))%nat)
    by (by rewrite ReserveFunctions_length, Hir1).
  destruct (LowerDeclarations_spec _ _ _ H2 Hlen) as (_ & _ & Hir2 & _).
  simpl in Hir2.
  rewrite LowerDefinitions_no_body in H3.
  - inversion H3; subst c3; clear H3.
    destruct (LowerDeclarations_appends _ (ReserveFunctions c1) c2 m
                ltac:(simpl; congruence) Hlen H2)
      as (created & Hm2 & Hcreated & Hfns).
    exists c1, c2, created. repeat split; try done.
    apply Forall_lookup. intros i lf Hi.
    assert (Hlt : (i < Semantics.functions_size (semantics_ir_ c))%nat).
    { apply lookup_lt_Some in Hi. lia. }
    destruct (Hfns i Hlt) as (_ & _ & _ & lf' & _ & _ & Hlf & _ & _ & Hbl).
    rewrite Hi in Hlf. by inversion Hlf; subst.
  - by rewrite Hir2, Hir1.
  - by rewrite Hir2, Hir1.
Qed.

(** *** The programs [Run] accepts *)

(** X8: [Run] completes only on a type table every entry of which is one
    of the three built-in kinds that [BuildType] lowers, or the id of a
    struct type node whose members all have a declared type id below the
    number of valid built-in kinds. *)
Theorem Run_types_supported (c : LoweringContext)
    (r : option LLVM.Module_ * LoweringContext) :
  Run c = Ok r →
  ∀ i t, Semantics.types (semantics_ir_ c) !! i = Some t →
    (t = EmptyTupleType ∨ t = FloatingPointType ∨ t = IntegerType) ∨
    ∃ node refs,
      Semantics.GetNode (semantics_ir_ c) t = Ok node ∧
      Semantics.kind node = Semantics.StructType ∧
      Semantics.GetNodeBlock (semantics_ir_ c) (Semantics.arg0 node)
        = Ok refs ∧
      Forall (λ ref, ∃ member,
                Semantics.GetNode (semantics_ir_ c) ref = Ok member ∧
                Semantics.type_id member < ValidCount) refs.
Proof.
  intros Hrun i t Hi.
  apply Run_Ok_inv in Hrun as (c1 & _ & _ & H1 & _).
  unfold LowerTypes in H1.
  apply LowerType_rounds in H1 as (_ & _ & Hrounds).
  2:{ simpl. unfold resize_for_overwrite.
      rewrite length_app, length_take, length_replicate. lia. }
  destruct (Hrounds i t Hi) as (ci & ty & Hty & _ & Hir & _).
  simpl in Hir.
  destruct (decide (t = EmptyTupleType)) as [|He]; [by left; left|].
  destruct (decide (t = FloatingPointType)) as [|Hf]; [by left; right; left|].
  destruct (decide (t = IntegerType)) as [|Hi']; [by left; right; right|].
  right. rewrite (BuildType_by_node t ci He Hf Hi'), Hir in Hty.
  apply bind_Ok in Hty as (node & Hnode & Hty).
  destruct (Semantics.kind node) eqn:Hk; try discriminate.
  apply bind_Ok in Hty as (block & Hb & Hty).
  unfold Semantics.GetAsStructType in Hb. rewrite Hk in Hb.
  inversion Hb; subst block; clear Hb.
  apply bind_Ok in Hty as (refs & Hrefs & Hty).
  apply bind_Ok in Hty as (subtypes & Hsub & _).
  exists node, refs. split; [done|]. split; [done|]. split; [done|].
  apply collect_Ok_Forall2 in Hsub. clear Hrefs.
  induction Hsub as [|ref sub refs' subs Hm _ IH]; constructor; [|exact IH].
  unfold BuildMemberType in Hm. rewrite Hir in Hm.
  apply bind_Ok in Hm as (member & Hmember & Hm).
  case_decide; [|discriminate]. by exists member.
Qed.

(** X10: for an error-free semantic IR in which no function has a body,
    a context built by the constructor and run to completion returns a
    module that carries the module name given to the constructor and holds
    exactly one function per semantic function, in id order, each created
    under the interned name of its semantic function, with external linkage
    and no basic block; the context is left without a module. *)
Theorem lower_declarations_only (module_name : string) (ir : Semantics.IR)
    (c : LoweringContext) (r : option LLVM.Module_ * LoweringContext) :
  NewLoweringContext module_name ir = Ok c →
  Forall (λ function,
            Semantics.is_valid (Semantics.body_id function) = false)
    (Semantics.functions ir) →
  Run c = Ok r →
  Semantics.has_errors ir = false ∧
  llvm_module_ r.2 = None ∧
  ∃ fs,
    r.1 = Some (LLVM.mkModule module_name fs) ∧
    length fs = Semantics.functions_size ir ∧
    ∀ i function,
      Semantics.functions ir !! i = Some function →
      ∃ name lf,
        Semantics.GetString ir (Semantics.name_id function) = Ok name ∧
        fs !! i = Some lf ∧ LLVM.fn_name lf = name ∧
        LLVM.fn_linkage lf = LLVM.ExternalLinkage ∧ LLVM.fn_blocks lf = [].
Proof.
  intros Hnew Hall Hrun. unfold NewLoweringContext in Hnew.
  destruct (Semantics.has_errors ir) eqn:Herr; [discriminate|].
  inversion Hnew; subst c; clear Hnew. split; [done|].
  apply Run_Ok_inv in Hrun as (c1 & c2 & c3 & H1 & H2 & H3 & ->).
  simpl in *. split; [done|].
  destruct (LowerTypes_frame _ _ H1) as (_ & _ & Hir1 & Hm1). simpl in *.
  assert (Hlen : (Semantics.functions_size ir
                  ≤ length (functions_ (ReserveFunctions c1)))%nat)
    by (by rewrite ReserveFunctions_length, Hir1).
  destruct (LowerDeclarations_spec _ _ _ H2 Hlen) as (_ & _ & Hir2 & _).
  simpl in Hir2.
  rewrite LowerDefinitions_no_body in H3;
    [| by rewrite Hir2, Hir1 | by rewrite Hir2, Hir1].
  inversion H3; subst c3; clear H3.
  destruct (LowerDeclarations_appends _ (ReserveFunctions c1) c2
              (LLVM.mkModule module_name []) Hm1 Hlen H2)
    as (created & Hm2 & Hcreated & Hfns).
  simpl in *. rewrite Hir1 in Hfns.
  exists created. split; [done|]. split; [done|].
  intros i function Hfn.
  destruct (Hfns i ltac:(by apply lookup_lt_Some in Hfn))
    as (_ & fn & name & lf & Hfn' & Hname & Hlf & Hn & Hlk & Hbl).
  unfold Semantics.GetFunction in Hfn'.
  rewrite at_index_of_nat, Hfn in Hfn'. inversion Hfn'; subst fn.
  by exists name, lf.
Qed.

Section HandlerReadOnlyIR.

(** The context refers to the semantic IR through a pointer to a constant
    that no handler can redirect. *)
Hypothesis handlers_keep_semantics_ir :
  ∀ k c node_id node c',
    LoweringHandle k c node_id node = Ok c' →
    semantics_ir_ c' = semantics_ir_ c.

Lemma BuildFunctionDefinition_semantics_ir (function_id : Z)
    (c c' : LoweringContext) :
  BuildFunctionDefinition function_id c = Ok c' →
  semantics_ir_ c' = semantics_ir_ c.
Proof.
  unfold BuildFunctionDefinition. intros H.
  apply bind_Ok in H as (fn & Hfn & H).
  destruct (Semantics.is_valid (Semantics.body_id fn)); simpl in H;
    [|by inversion H].
  apply bind_Ok in H as (h & _ & H). case_decide; [|discriminate].
  apply bind_Ok in H as (refs & _ & H). apply bind_Ok in H as (c2 & Hc2 & H).
  apply bind_Ok in H as (body & _ & H). apply bind_Ok in H as (c3 & Hc3 & H).
  inversion H; subst; clear H. simpl.
  destruct (EnterFunction_frame h c) as (_ & _ & _ & Hir).
  assert (Hir2 : semantics_ir_ c2 = semantics_ir_ c).
  { eapply (for_each_preserves (λ c0, semantics_ir_ c0 = semantics_ir_ c));
      [| exact Hc2 | exact Hir].
    intros i r c0 c0' _ Hstep HP.
    apply BindParam_Ok in Hstep as (s & _ & _ & ->). done. }
  eapply (for_each_preserves (λ c0, semantics_ir_ c0 = semantics_ir_ c));
    [| exact Hc3 | exact Hir2].
  intros i r c0 c0' _ Hstep HP. unfold LowerNode in Hstep.
  apply bind_Ok in Hstep as (node & _ & Hstep).
  apply handlers_keep_semantics_ir in Hstep. congruence.
Qed.

Lemma LowerDefinitions_semantics_ir (n : nat) (c c' : LoweringContext) :
  LowerDefinitions n c = Ok c' → semantics_ir_ c' = semantics_ir_ c.
Proof.
  revert c'. induction n as [|n IH]; intros c' H.
  - by inversion H; subst.
  - rewrite LowerDefinitions_S in H. apply bind_Ok in H as (c1 & H1 & H).
    apply BuildFunctionDefinition_semantics_ir in H. rewrite H. by apply IH.
Qed.

(** X9: [Run] completes only on a program in which every function that
    has a body binds its parameters to pairwise distinct storages. *)
Theorem Run_parameters_distinct (c : LoweringContext)
    (r : option LLVM.Module_ * LoweringContext) :
  Run c = Ok r →
  ∀ i function,
    Semantics.functions (semantics_ir_ c) !! i = Some function →
    Semantics.is_valid (Semantics.body_id function) = true →
    ∃ ss, ParamStorages (semantics_ir_ c) function = Ok ss ∧ NoDup ss.
Proof.
  intros Hrun i function Hfn Hbody.
  apply Run_Ok_inv in Hrun as (c1 & c2 & c3 & H1 & H2 & H3 & _).
  destruct (LowerTypes_frame _ _ H1) as (_ & _ & Hir1 & _).
  assert (Hlen : (Semantics.functions_size (semantics_ir_ c)
                  ≤ length (functions_ (ReserveFunctions c1)))%nat)
    by (by rewrite ReserveFunctions_length, Hir1).
  destruct (LowerDeclarations_spec _ _ _ H2 Hlen) as (_ & _ & Hir2 & _).
  simpl in Hir2.
  destruct (LowerDefinitions_around _ i _ _ H3)
    as (before & after & Hb & Hstep & _).
  { by apply lookup_lt_Some in Hfn. }
  assert (Hir : semantics_ir_ before = semantics_ir_ c).
  { rewrite (LowerDefinitions_semantics_ir _ _ _ Hb). congruence. }
  unfold BuildFunctionDefinition in Hstep. rewrite Hir in Hstep.
  unfold Semantics.GetFunction in Hstep.
  rewrite at_index_of_nat, Hfn in Hstep. simpl in Hstep.
  rewrite Hbody in Hstep. simpl in Hstep.
  apply bind_Ok in Hstep as (h & _ & Hstep).
  case_decide; [|discriminate].
  apply bind_Ok in Hstep as (refs & Hrefs & Hstep).
  apply bind_Ok in Hstep as (c2' & Hc2 & _).
  apply BindParams_Ok_inv in Hc2 as (ss & Hss & Hnd & _).
  exists ss. split; [|done]. unfold ParamStorages. by rewrite Hrefs.
Qed.

End HandlerReadOnlyIR.

End Lowering.

(** ** The properties on the sample program *)

Local Abbreviation SBuildType :=
  (BuildType Sample.EmptyTupleType Sample.FloatingPointType
     Sample.IntegerType Sample.ValidCount Sample.builtin_name).
Local Abbreviation SLowerTypes :=
  (LowerTypes Sample.EmptyTupleType Sample.FloatingPointType
     Sample.IntegerType Sample.ValidCount Sample.builtin_name).
Local Abbreviation SBuildFunctionDefinition :=
  (BuildFunctionDefinition Sample.LoweringHandle).
Local Abbreviation SLowerDefinitions :=
  (LowerDefinitions Sample.LoweringHandle).
Local Abbreviation SRun :=
  (Run Sample.EmptyTupleType Sample.FloatingPointType Sample.IntegerType
     Sample.ValidCount Sample.builtin_name Sample.LoweringHandle).

(** The sample contexts are the ones the passes compute. *)
Lemma Sample_passes :
  NewLoweringContext "m" Sample.ir = Ok Sample.fresh ∧
  ReserveFunctions <$> SLowerTypes Sample.fresh = Ok Sample.typed ∧
  ReserveFunctions <$> SLowerTypes Sample.fresh_dup = Ok Sample.typed_dup ∧
  LowerDeclarations 3 Sample.typed_dup = Ok Sample.declared_dup.
Proof. repeat split; vm_compute; reflexivity. Qed.

Lemma Sample_handlers_keep_functions :
  ∀ k c node_id node c',
    Sample.LoweringHandle k c node_id node = Ok c' →
    functions_ c' = functions_ c.
Proof.
  intros k c node_id node c' H.
  destruct k as [| |[|[|[|[|[|t]]]]]]; simpl in H;
    try (by inversion H).
  - apply SetLocal_functions in H. rewrite H.
    by destruct (Insert_frame (LLVM.AllocaInst (Z.to_nat node_id)) c)
      as (_ & _ & ? & _).
  - apply bind_Ok in H as ([v c1] & H1 & H). inversion H; subst; clear H.
    apply GetLocalLoaded_functions in H1. simpl. rewrite <- H1.
    by destruct (Insert_frame (LLVM.OtherValue 3) c1) as (_ & _ & ? & _).
  - apply bind_Ok in H as ([v1 c1] & H1 & H).
    apply bind_Ok in H as ([v2 c2] & H2 & H). simpl in *.
    apply SetLocal_functions in H. apply GetLocalLoaded_functions in H1, H2.
    rewrite H, <- H1, <- H2.
    by destruct (Insert_frame (LLVM.OtherValue 4) c2) as (_ & _ & ? & _).
Qed.

Lemma GetLocalLoaded_recorded_witness :
  locals_ Sample.in_body !! 15 = Some (LLVM.AllocaInst 15) ∧
  GetLocalLoaded 15 Sample.in_body =
    Ok (LLVM.LoadInst LLVM.Int32Ty (LLVM.AllocaInst 15),
        Insert (LLVM.LoadInst LLVM.Int32Ty (LLVM.AllocaInst 15))
          Sample.in_body) ∧
  locals_ Sample.in_body !! 6 = Some (LLVM.Argument 0 0) ∧
  GetLocalLoaded 6 Sample.in_body = Ok (LLVM.Argument 0 0, Sample.in_body).
Proof.
  assert (H15 : locals_ Sample.in_body !! 15 = Some (LLVM.AllocaInst 15))
    by reflexivity.
  assert (H6 : locals_ Sample.in_body !! 6 = Some (LLVM.Argument 0 0))
    by reflexivity.
  split; [exact H15|]. split; [|split; [exact H6|]].
  - exact (proj1 (proj2 (GetLocalLoaded_recorded 15 _ Sample.in_body H15)
                    eq_refl (Semantics.mkNode Sample.VarStorage 0 0 0)
                    LLVM.Int32Ty eq_refl eq_refl)).
  - exact (proj1 (GetLocalLoaded_recorded 6 _ Sample.in_body H6) eq_refl).
Defined.

Lemma declaration_handle_at_definition_witness :
  ∃ c1 c2 before,
    SLowerTypes Sample.fresh_ext_add = Ok c1 ∧
    LowerDeclarations 2 (ReserveFunctions c1) = Ok c2 ∧
    is_Ok (SRun Sample.fresh_ext_add) ∧
    SLowerDefinitions 1 c2 = Ok before ∧
    functions_ c2 !! 1%nat = Some (Some 1%nat) ∧
    GetFunction 1 before = Ok 1%nat ∧
    SBuildFunctionDefinition 1 before =
      (if decide (dom (locals_ (EnterFunction 1 before)) = ∅) then
         param_refs ←
           Semantics.GetNodeBlock (semantics_ir_ before)
             (Semantics.param_refs_id Sample.add);
         bound ←
           for_each (BindParam (semantics_ir_ before) 1) 0 param_refs
             (EnterFunction 1 before);
         body ←
           Semantics.GetNodeBlock (semantics_ir_ before)
             (Semantics.body_id Sample.add);
         lowered ←
           for_each (LowerNode Sample.LoweringHandle (semantics_ir_ before))
             0 body bound;
         Ok (set_locals ∅ lowered)
       else Fatal LocalsNotEmpty).
Proof.
  destruct (SLowerTypes Sample.fresh_ext_add) as [c1|e] eqn:H1;
    [|vm_compute in H1; discriminate].
  pose proof H1 as Hc1. vm_compute in Hc1. injection Hc1 as Hc1.
  destruct (LowerDeclarations 2 (ReserveFunctions c1)) as [c2|e] eqn:H2;
    [|rewrite <- Hc1 in H2; vm_compute in H2; discriminate].
  pose proof H2 as Hc2. rewrite <- Hc1 in Hc2. vm_compute in Hc2.
  injection Hc2 as Hc2.
  destruct (SLowerDefinitions 1 c2) as [before|e] eqn:Hb;
    [|rewrite <- Hc2 in Hb; vm_compute in Hb; discriminate].
  pose proof Hb as Hbefore. rewrite <- Hc2 in Hbefore. vm_compute in Hbefore.
  injection Hbefore as Hbefore.
  destruct (SRun Sample.fresh_ext_add) as [r|e] eqn:Hrun;
    [|vm_compute in Hrun; discriminate].
  destruct (declaration_handle_at_definition Sample.EmptyTupleType
              Sample.FloatingPointType Sample.IntegerType Sample.ValidCount
              Sample.builtin_name Sample.LoweringHandle
              Sample_handlers_keep_functions Sample.fresh_ext_add c1 c2 H1 H2)
    as (Hhandle & _).
  destruct (Hhandle 1%nat ltac:(vm_compute; lia))
    as (d & d' & h & _ & _ & Hh & Hlookup & Huse).
  pose proof Hh as Hh'. rewrite <- Hc2 in Hh'. vm_compute in Hh'.
  injection Hh' as <-.
  assert (Hfn : Semantics.GetFunction (semantics_ir_ before) 1
                = Ok Sample.add) by (by rewrite <- Hbefore).
  exists c1, c2, before. split; [reflexivity|]. split; [exact H2|].
  split; [by exists r|]. split; [exact Hb|]. split; [exact Hh|].
  split; [exact (Hlookup 1%nat before Hb)|].
  exact (proj1 (Huse before Sample.add Hb Hfn eq_refl)).
Defined.

Lemma BuildType_builtin_witness :
  SBuildType Sample.IntegerType Sample.in_body = Ok LLVM.Int32Ty ∧
  SBuildType Sample.FloatingPointType Sample.in_body = Ok LLVM.DoubleTy ∧
  SBuildType Sample.EmptyTupleType Sample.in_body
  = Ok (LLVM.StructTy "() as Type" []).
Proof.
  apply (BuildType_builtin Sample.EmptyTupleType Sample.FloatingPointType
           Sample.IntegerType Sample.ValidCount Sample.builtin_name).
  repeat split; discriminate.
Defined.

Lemma Sample_builtin_kinds_in_range :
  InBuiltinRange Sample.ValidCount Sample.EmptyTupleType ∧
  InBuiltinRange Sample.ValidCount Sample.FloatingPointType ∧
  InBuiltinRange Sample.ValidCount Sample.IntegerType.
Proof. unfold InBuiltinRange. vm_compute. intuition discriminate. Qed.

Lemma BuildType_outside_builtin_range_witness :
  ¬ InBuiltinRange Sample.ValidCount 3 ∧
  SBuildType 3 Sample.typed
  = Ok (LLVM.StructTy "StructLiteralType" [LLVM.Int32Ty; LLVM.DoubleTy]) ∧
  SBuildType 13 Sample.typed = Fatal (MemberTypeNotBuiltin 3) ∧
  SBuildType 4 Sample.typed = Fatal (CannotUseNodeAsType 4).
Proof.
  assert (Hout : ∀ id, 3 ≤ id → ¬ InBuiltinRange Sample.ValidCount id).
  { intros id Hid [_ Hlt]. unfold Sample.ValidCount in Hlt. lia. }
  pose proof (BuildType_outside_builtin_range Sample.EmptyTupleType
                Sample.FloatingPointType Sample.IntegerType Sample.ValidCount
                Sample.builtin_name Sample_builtin_kinds_in_range) as Hspec.
  split; [apply Hout; lia|]. split; [|split].
  - apply (Hspec 3 Sample.typed (Hout 3 ltac:(lia))).
    exists (Semantics.mkNode Semantics.StructType (-1) 0 0), [4; 5],
      [LLVM.Int32Ty; LLVM.DoubleTy].
    repeat split; try reflexivity.
    repeat constructor.
    + exists (Semantics.mkNode Sample.StructTypeField 0 0 0).
      repeat split; try reflexivity; vm_compute; congruence.
    + exists (Semantics.mkNode Sample.StructTypeField 1 0 0).
      repeat split; try reflexivity; vm_compute; congruence.
  - destruct (Hspec 13 Sample.typed (Hout 13 ltac:(lia))) as (_ & Hmember & _).
    refine (proj1 (Hmember
              (Semantics.mkNode Semantics.StructType (-1) 5 0) [14] [] 14 []
              [] (Semantics.mkNode Sample.StructTypeField 3 0 0)
              eq_refl eq_refl eq_refl eq_refl ltac:(constructor) eq_refl) _).
    vm_compute. discriminate.
  - destruct (Hspec 4 Sample.typed (Hout 4 ltac:(lia))) as (Hkind & _).
    apply (Hkind (Semantics.mkNode Sample.StructTypeField 0 0 0) eq_refl).
    discriminate.
Defined.

(** The function [ext] binds storage 6 to both of its parameters and has
    no body: its definition lowering returns without a failure, and the
    whole [Run] completes. *)
Lemma duplicate_storage_without_body :
  Semantics.GetFunction Sample.ir 1 = Ok Sample.ext ∧
  ParamStorages Sample.ir Sample.ext = Ok [6; 6] ∧
  SBuildFunctionDefinition 1 Sample.fresh = Ok Sample.fresh ∧
  is_Ok (SRun Sample.fresh).
Proof.
  repeat split; try reflexivity.
  destruct (SRun Sample.fresh) as [r|e] eqn:Hrun;
    [by exists r | vm_compute in Hrun; discriminate].
Qed.

Lemma BuildFunctionDefinition_params_witness :
  (Semantics.GetFunction Sample.ir_dup 2 = Ok Sample.dup ∧
   Semantics.is_valid (Semantics.body_id Sample.dup) = true ∧
   ParamStorages Sample.ir_dup Sample.dup = Ok [6; 6] ∧
   SBuildFunctionDefinition 2 Sample.declared_dup
   = Fatal (DuplicateParam 12)) ∧
  (Semantics.GetFunction Sample.ir_dup 0 = Ok Sample.add ∧
   Semantics.is_valid (Semantics.body_id Sample.add) = true ∧
   ParamStorages Sample.ir_dup Sample.add = Ok [6; 8] ∧
   ∃ c2,
     for_each (BindParam Sample.ir_dup 0) 0 [7; 9]
       (EnterFunction 0 Sample.declared_dup) = Ok c2 ∧
     locals_ c2 !! 6 = Some (LLVM.Argument 0 0) ∧
     locals_ c2 !! 8 = Some (LLVM.Argument 0 1)).
Proof.
  split.
  - split; [reflexivity|]. split; [reflexivity|]. split; [reflexivity|].
    destruct (BuildFunctionDefinition_params Sample.LoweringHandle 2
                Sample.dup Sample.declared_dup [6; 6] eq_refl eq_refl eq_refl)
      as (_ & Hdup & _).
    apply (Hdup 2%nat [7; 12] [7] 12 [] [6] 6); try reflexivity.
    + apply NoDup_singleton.
    + apply list_elem_of_singleton. reflexivity.
  - split; [reflexivity|]. split; [reflexivity|]. split; [reflexivity|].
    destruct (BuildFunctionDefinition_params Sample.LoweringHandle 0
                Sample.add Sample.declared_dup [6; 8] eq_refl eq_refl eq_refl)
      as (_ & _ & Hnodup).
    assert (Hnd : NoDup [6; 8]) by (by apply (bool_decide_unpack _)).
    destruct (Hnodup Hnd 0%nat [7; 9] eq_refl eq_refl eq_refl)
      as (c2 & Hrun & Hargs & _).
    exists c2. split; [exact Hrun|]. split.
    + exact (Hargs 0%nat 6 eq_refl).
    + exact (Hargs 1%nat 8 eq_refl).
Defined.

Lemma locals_empty_around_definition_witness :
  ∃ r, SRun Sample.fresh = Ok r ∧
  ∀ i, (i < 2)%nat →
    ∃ before after,
      SBuildFunctionDefinition (Z.of_nat i) before = Ok after ∧
      locals_ before = ∅ ∧ locals_ after = ∅.
Proof.
  destruct (SRun Sample.fresh) as [r|e] eqn:Hrun;
    [|vm_compute in Hrun; discriminate].
  exists r. split; [reflexivity|].
  destruct (locals_empty_around_definition Sample.EmptyTupleType
              Sample.FloatingPointType Sample.IntegerType Sample.ValidCount
              Sample.builtin_name Sample.LoweringHandle)
    as (_ & _ & _ & _ & Hloop).
  destruct (Hloop Sample.fresh r eq_refl Hrun) as (c1 & c2 & _ & _ & Hall).
  intros i Hi.
  destruct (Hall i Hi) as (before & after & _ & Hstep & _ & Hb & Ha).
  by exists before, after.
Defined.

Lemma BuildFunctionDeclaration_return_type_witness :
  ∃ h1 c1 h0 c0,
    BuildFunctionDeclaration 1 Sample.typed = Ok (h1, c1) ∧
    BuildFunctionDeclaration 0 Sample.typed = Ok (h0, c0) ∧
    (∃ m f, llvm_module_ c1 = Some m ∧ LLVM.mod_functions m !! h1 = Some f ∧
            LLVM.return_type (LLVM.fn_type f)
            = Some (LLVM.StructTy "() as Type" [])) ∧
    (∃ m f, llvm_module_ c0 = Some m ∧ LLVM.mod_functions m !! h0 = Some f ∧
            LLVM.return_type (LLVM.fn_type f) = Some LLVM.Int32Ty).
Proof.
  destruct (BuildFunctionDeclaration 1 Sample.typed) as [[h1 c1]|e] eqn:H1;
    [|vm_compute in H1; discriminate].
  destruct (BuildFunctionDeclaration 0 Sample.typed) as [[h0 c0]|e] eqn:H0;
    [|vm_compute in H0; discriminate].
  exists h1, c1, h0, c0. split; [reflexivity|]. split; [reflexivity|]. split.
  - destruct (BuildFunctionDeclaration_return_type 1 Sample.typed c1 h1
                Sample.ext eq_refl H1) as (m & f & rt & Hm & Hf & Hrt & Hno & _).
    exists m, f. split; [exact Hm|]. split; [exact Hf|].
    rewrite Hrt. f_equal. specialize (Hno eq_refl).
    vm_compute in Hno. congruence.
  - destruct (BuildFunctionDeclaration_return_type 0 Sample.typed c0 h0
                Sample.add eq_refl H0) as (m & f & rt & Hm & Hf & Hrt & _ & Hyes).
    exists m, f. split; [exact Hm|]. split; [exact Hf|].
    rewrite Hrt. f_equal. specialize (Hyes eq_refl).
    vm_compute in Hyes. congruence.
Defined.

Lemma BuildFunctionDefinition_no_body_witness :
  Semantics.GetFunction Sample.ir 1 = Ok Sample.ext ∧
  Semantics.is_valid (Semantics.body_id Sample.ext) = false ∧
  SBuildFunctionDefinition 1 Sample.typed = Ok Sample.typed ∧
  ∃ c2 h, LowerDeclarations 2 Sample.typed = Ok c2 ∧
          GetFunction 1 c2 = Ok h ∧
          SBuildFunctionDefinition 1 c2 = Ok c2.
Proof.
  destruct (BuildFunctionDefinition_no_body Sample.LoweringHandle 1 Sample.ext
              Sample.typed eq_refl eq_refl) as (Hdef & Hdecl).
  split; [reflexivity|]. split; [reflexivity|]. split; [exact Hdef|].
  destruct (LowerDeclarations 2 Sample.typed) as [c2|e] eqn:H2;
    [|vm_compute in H2; discriminate].
  destruct (Hdecl c2 H2) as (h & Hh & Hdef2).
  by exists c2, h.
Defined.

Lemma Run_only_once_witness :
  ∃ m c', SRun Sample.fresh = Ok (m, c') ∧ SRun c' = Fatal RunOnlyOnce.
Proof.
  destruct (SRun Sample.fresh) as [[m c']|e] eqn:Hrun;
    [|vm_compute in Hrun; discriminate].
  exists m, c'. split; [reflexivity|].
  exact (proj2 (proj2 (proj2 (Run_only_once Sample.EmptyTupleType
                                Sample.FloatingPointType Sample.IntegerType
                                Sample.ValidCount Sample.builtin_name
                                Sample.LoweringHandle)
                       Sample.fresh m c' Hrun))).
Defined.

Lemma BuildFunctionDeclaration_locals_witness :
  ParamStorages Sample.ir Sample.ext = Ok [6; 6] ∧
  Declarable Sample.typed 1 ∧
  is_Ok (BuildFunctionDeclaration 1 Sample.typed) ∧
  ∀ h c', BuildFunctionDeclaration 1 Sample.typed = Ok (h, c') →
          locals_ c' = ∅.
Proof.
  assert (Hdecl : Declarable Sample.typed 1).
  { exists Sample.ext, [7; 12]. split; [reflexivity|]. split; [reflexivity|].
    split; [|repeat split; by eexists].
    repeat constructor.
    - exists (Semantics.mkNode Semantics.BindName 0 1 6).
      repeat split; by eexists.
    - exists (Semantics.mkNode Semantics.BindName 0 2 6).
      repeat split; by eexists. }
  destruct (BuildFunctionDeclaration_locals 1 Sample.typed)
    as (Hframe & _ & Hok).
  split; [reflexivity|]. split; [exact Hdecl|]. split; [exact (Hok Hdecl)|].
  intros h c' H. exact (Hframe h c' H).
Defined.

(** ** Further properties on the sample programs *)

Lemma Sample_handlers_keep_semantics_ir :
  ∀ k c node_id node c',
    Sample.LoweringHandle k c node_id node = Ok c' →
    semantics_ir_ c' = semantics_ir_ c.
Proof.
  intros k c node_id node c' H.
  destruct k as [| |[|[|[|[|[|t]]]]]]; simpl in H;
    try (by inversion H).
  - apply SetLocal_semantics_ir in H. rewrite H.
    by destruct (Insert_frame (LLVM.AllocaInst (Z.to_nat node_id)) c)
      as (_ & _ & _ & ? & _).
  - apply bind_Ok in H as ([v c1] & H1 & H). inversion H; subst; clear H.
    apply GetLocalLoaded_semantics_ir in H1. simpl. rewrite <- H1.
    by destruct (Insert_frame (LLVM.OtherValue 3) c1) as (_ & _ & _ & ? & _).
  - apply bind_Ok in H as ([v1 c1] & H1 & H).
    apply bind_Ok in H as ([v2 c2] & H2 & H). simpl in *.
    apply SetLocal_semantics_ir in H.
    apply GetLocalLoaded_semantics_ir in H1, H2.
    rewrite H, <- H1, <- H2.
    by destruct (Insert_frame (LLVM.OtherValue 4) c2) as (_ & _ & _ & ? & _).
Qed.

Local Ltac resolve H := vm_compute in H; injection H as <-.

Lemma BuildFunctionDeclaration_created_witness :
  ∃ h c',
    BuildFunctionDeclaration 0 Sample.typed = Ok (h, c') ∧
    h = 0%nat ∧
    llvm_module_ c' =
      Some (LLVM.mkModule "m"
              [LLVM.mkFunction
                 (LLVM.FunctionTy LLVM.Int32Ty [LLVM.Int32Ty; LLVM.Int32Ty]
                    false)
                 LLVM.ExternalLinkage "add" ["a"; "b"] []]).
Proof.
  destruct (BuildFunctionDeclaration 0 Sample.typed) as [[h c']|e] eqn:H;
    [|vm_compute in H; discriminate].
  exists h, c'. split; [reflexivity|].
  destruct (BuildFunctionDeclaration_created 0 Sample.typed c' h H)
    as (function & refs & args & rt & name & names & m & lf & Hfn & Hrefs
        & Hargs & Hrt & Hname & Hnames & -> & Hm & Hm' & -> & _).
  rewrite Hm'. resolve Hm. resolve Hfn. resolve Hrefs. resolve Hargs.
  resolve Hrt. resolve Hname. resolve Hnames. split; reflexivity.
Defined.

Lemma LowerDeclarations_handles_witness :
  ∃ c2,
    LowerDeclarations 2 Sample.typed = Ok c2 ∧
    ∃ m2, llvm_module_ c2 = Some m2 ∧
          length (LLVM.mod_functions m2) = 2%nat ∧
          ∀ hi hj, GetFunction 0 c2 = Ok hi → GetFunction 1 c2 = Ok hj →
                   hi ≠ hj.
Proof.
  destruct (LowerDeclarations 2 Sample.typed) as [c2|e] eqn:H;
    [|vm_compute in H; discriminate].
  exists c2. split; [reflexivity|].
  destruct (LowerDeclarations_handles 2 Sample.typed c2
              (LLVM.mkModule "m" []) eq_refl ltac:(simpl; lia) H)
    as (m2 & Hm2 & _ & Hlen & _ & _ & Hinj).
  exists m2. split; [exact Hm2|]. split; [exact Hlen|].
  intros hi hj Hi Hj Heq.
  pose proof (Hinj 0%nat 1%nat hi hj ltac:(lia) ltac:(lia) Hi Hj Heq).
  discriminate.
Defined.

Lemma LowerTypes_populated_witness :
  ∃ c1,
    SLowerTypes Sample.fresh = Ok c1 ∧
    length (types_ c1) = 4%nat ∧
    ∃ ty, GetType 3 c1 = Ok ty.
Proof.
  destruct (SLowerTypes Sample.fresh) as [c1|e] eqn:H;
    [|vm_compute in H; discriminate].
  exists c1. split; [reflexivity|].
  destruct (LowerTypes_populated Sample.EmptyTupleType
              Sample.FloatingPointType Sample.IntegerType Sample.ValidCount
              Sample.builtin_name Sample.fresh c1 H)
    as (Hlen & Hall & _).
  split; [exact Hlen|].
  destruct (Hall 3%nat 3 eq_refl) as (ci & ty & _ & Hty & _).
  by exists ty.
Defined.

Lemma GetLocalLoaded_materialized_witness :
  ∃ v c',
    GetLocalLoaded 15 Sample.in_body = Ok (v, c') ∧
    LLVM.isa_AllocaInst_or_GetElementPtrInst v = false ∧
    locals_ c' = locals_ Sample.in_body.
Proof.
  destruct (GetLocalLoaded 15 Sample.in_body) as [[v c']|e] eqn:H;
    [|vm_compute in H; discriminate].
  exists v, c'. split; [reflexivity|].
  destruct (GetLocalLoaded_materialized 15 Sample.in_body c' v H)
    as (Hkind & _ & Hl & _).
  by split.
Defined.

Lemma parameters_need_no_load_witness :
  ∃ c2,
    GetLocalLoaded 6 c2 = Ok (LLVM.Argument 0 0, c2) ∧
    GetLocalLoaded 8 c2 = Ok (LLVM.Argument 0 1, c2) ∧
    SBuildFunctionDefinition 0 Sample.declared_dup =
      (c3 ← for_each (LowerNode Sample.LoweringHandle Sample.ir_dup) 0
              [10; 11] c2;
       Ok (set_locals ∅ c3)).
Proof.
  assert (Hnd : NoDup [6; 8]) by (by apply (bool_decide_unpack _)).
  destruct (parameters_need_no_load Sample.LoweringHandle 0 Sample.add
              Sample.declared_dup 0%nat [7; 9] [6; 8]
              eq_refl eq_refl eq_refl eq_refl eq_refl eq_refl Hnd)
    as (c2 & Hdef & Hargs).
  exists c2. split; [exact (Hargs 0%nat 6 eq_refl)|].
  split; [exact (Hargs 1%nat 8 eq_refl)|]. exact Hdef.
Defined.

Lemma BuildFunctionDefinition_empty_body_witness :
  ∃ m',
    SBuildFunctionDefinition 0 Sample.declared_nop =
      Ok (mkLoweringContext (Some m') (LLVM.mkIRBuilder (Some (0, 0))%nat)
            Sample.ir_nop Sample.lowered_types [Some 0%nat] ∅) ∧
    LLVM.mod_functions m' !! 0%nat =
      Some (LLVM.mkFunction
              (LLVM.FunctionTy (LLVM.StructTy "() as Type" [])
                 [LLVM.Int32Ty; LLVM.Int32Ty] false)
              LLVM.ExternalLinkage "dup" ["a"; "b"]
              [LLVM.mkBasicBlock "entry" []]).
Proof.
  assert (Hnd : NoDup [6; 8]) by (by apply (bool_decide_unpack _)).
  destruct (BuildFunctionDefinition_empty_body Sample.LoweringHandle 0
              Sample.nop Sample.declared_nop 0%nat [7; 9] [6; 8] _ _
              eq_refl eq_refl eq_refl eq_refl eq_refl eq_refl eq_refl Hnd
              eq_refl eq_refl)
    as (m' & Hdef & _ & _ & Hentry & _).
  exists m'. split; [exact Hdef | exact Hentry].
Defined.

Lemma Run_declarations_only_witness :
  ∃ r c2 created,
    SRun Sample.fresh_ext = Ok r ∧
    r = (llvm_module_ c2, set_llvm_module None c2) ∧
    llvm_module_ c2 = Some (LLVM.mkModule "m" created) ∧
    length created = 1%nat ∧
    Forall (λ lf, LLVM.fn_blocks lf = []) created.
Proof.
  destruct (SRun Sample.fresh_ext) as [r|e] eqn:H;
    [|vm_compute in H; discriminate].
  assert (Hall : Forall (λ function,
                   Semantics.is_valid (Semantics.body_id function) = false)
                   (Semantics.functions (semantics_ir_ Sample.fresh_ext)))
    by (by repeat constructor).
  destruct (Run_declarations_only Sample.EmptyTupleType
              Sample.FloatingPointType Sample.IntegerType Sample.ValidCount
              Sample.builtin_name Sample.LoweringHandle Sample.fresh_ext
              (LLVM.mkModule "m" []) r Hall eq_refl H)
    as (c1 & c2 & created & _ & _ & Hr & Hm & Hlen & Hbl).
  by exists r, c2, created.
Defined.

Lemma Run_types_supported_witness :
  ∃ r,
    SRun Sample.fresh = Ok r ∧
    ∃ node refs,
      Semantics.GetNode Sample.ir 3 = Ok node ∧
      Semantics.kind node = Semantics.StructType ∧
      Semantics.GetNodeBlock Sample.ir (Semantics.arg0 node) = Ok refs ∧
      Forall (λ ref, ∃ member,
                Semantics.GetNode Sample.ir ref = Ok member ∧
                Semantics.type_id member < Sample.ValidCount) refs.
Proof.
  destruct (SRun Sample.fresh) as [r|e] eqn:H;
    [|vm_compute in H; discriminate].
  exists r. split; [reflexivity|].
  destruct (Run_types_supported Sample.EmptyTupleType
              Sample.FloatingPointType Sample.IntegerType Sample.ValidCount
              Sample.builtin_name Sample.LoweringHandle Sample.fresh r H
              3%nat 3 eq_refl) as [[Hb|[Hb|Hb]]|Hstruct];
    [discriminate Hb | discriminate Hb | discriminate Hb | exact Hstruct].
Defined.

Lemma Run_parameters_distinct_witness :
  ∃ r,
    SRun Sample.fresh = Ok r ∧
    ∃ ss, ParamStorages Sample.ir Sample.add = Ok ss ∧ NoDup ss.
Proof.
  destruct (SRun Sample.fresh) as [r|e] eqn:H;
    [|vm_compute in H; discriminate].
  exists r. split; [reflexivity|].
  exact (Run_parameters_distinct Sample.EmptyTupleType
           Sample.FloatingPointType Sample.IntegerType Sample.ValidCount
           Sample.builtin_name Sample.LoweringHandle
           Sample_handlers_keep_semantics_ir Sample.fresh r H
           0%nat Sample.add eq_refl eq_refl).
Defined.

Lemma lower_declarations_only_witness :
  ∃ c r fs,
    NewLoweringContext "m" Sample.ir_ext = Ok c ∧
    SRun c = Ok r ∧
    r.1 = Some (LLVM.mkModule "m" fs) ∧
    length fs = 1%nat ∧
    ∃ lf, fs !! 0%nat = Some lf ∧ LLVM.fn_name lf = "ext" ∧
          LLVM.fn_blocks lf = [].
Proof.
  assert (Hnew : NewLoweringContext "m" Sample.ir_ext = Ok Sample.fresh_ext)
    by reflexivity.
  destruct (SRun Sample.fresh_ext) as [r|e] eqn:H;
    [|vm_compute in H; discriminate].
  assert (Hall : Forall (λ function,
                   Semantics.is_valid (Semantics.body_id function) = false)
                   (Semantics.functions Sample.ir_ext))
    by (by repeat constructor).
  destruct (lower_declarations_only Sample.EmptyTupleType
              Sample.FloatingPointType Sample.IntegerType Sample.ValidCount
              Sample.builtin_name Sample.LoweringHandle "m" Sample.ir_ext
              Sample.fresh_ext r Hnew Hall H)
    as (_ & _ & fs & Hr & Hlen & Hfns).
  exists Sample.fresh_ext, r, fs.
  split; [exact Hnew|]. split; [exact H|]. split; [exact Hr|].
  split; [exact Hlen|].
  destruct (Hfns 0%nat Sample.ext eq_refl)
    as (name & lf & Hname & Hlf & Hn & _ & Hbl).
  exists lf. split; [exact Hlf|]. split; [|exact Hbl].
  rewrite Hn. vm_compute in Hname. by injection Hname as <-.
Defined.
